(** * Otto: webhook verification, module registry, dispatch and lifecycle

    A shallow embedding of the Go package [otto/internal]
    (commands.go, config.go, modules.go, app.go, server.go, telemetry.go)
    together with the parts of the Go standard library those files call
    ([strings], [unicode/utf8], [unicode], [encoding/hex],
    [crypto/subtle]).

    Go strings are byte sequences: they are modelled by [string], whose
    characters are 8-bit [ascii] values.  A Go byte is an [ascii] too, so
    [[]byte] is [list byte] and [[]byte(s)] lists the characters of [s].
    Go [int], [rune] and [uint32] are [Z], with wrap-around written out
    where the source relies on it. *)

From Stdlib Require Import ZArith List Bool Ascii String Lia Permutation.
From stdpp Require Import base option list gmap strings fin_maps.

#[local] Set Warnings "-register-all".

Local Open Scope string_scope.
Local Open Scope Z_scope.

(* ===================================================================== *)
(** * Part I: the program                                                 *)
(* ===================================================================== *)

(** ** Bytes of a Go string *)

Abbreviation byte := ascii (only parsing).

Definition byteval (c : byte) : Z := Z.of_N (N_of_ascii c).

(** [byte(v)] for [0 <= v < 256]. *)
Definition byte_of (v : Z) : byte := ascii_of_N (Z.to_N v).

(** [[]byte(s)] and [string(b)] *)
Definition bytes_of (s : string) : list byte := list_ascii_of_string s.
Definition string_of (l : list byte) : string := string_of_list_ascii l.

(** [s[i]] for an index known to be in range; 0 stands for the run-time
    panic of an out-of-range index, which no caller below triggers. *)
Definition byteAt (s : list ascii) (i : Z) : Z :=
  if i <? 0 then 0 else
  match nth_error s (Z.to_nat i) with
  | Some c => byteval c
  | None => 0
  end.

(** [s[lo:hi]] *)
Definition slice (s : list ascii) (lo hi : Z) : list ascii :=
  firstn (Z.to_nat (hi - lo)) (skipn (Z.to_nat lo) s).

Definition len (s : list ascii) : Z := Z.of_nat (List.length s).

(** ** package unicode/utf8 *)

Module Utf8.

Definition RuneError : Z := 0xFFFD.
Definition RuneSelf : Z := 0x80.
Definition UTFMax : Z := 4.

(** [RuneStart(b)]: b is not a continuation byte. *)
Definition RuneStart (b : Z) : bool := negb (Z.land b 0xC0 =? 0x80).

(** Size announced by a leading byte, and the range accepted for the
    second byte ([first] and [acceptRanges] of the Go source, read as
    intervals).  Leading bytes outside 0xC2..0xF4 are invalid. *)
Definition leadSize (s0 : Z) : Z :=
  if s0 <? 0xE0 then 2 else if s0 <? 0xF0 then 3 else 4.

Definition acceptLo (s0 : Z) : Z :=
  if s0 =? 0xE0 then 0xA0 else if s0 =? 0xF0 then 0x90 else 0x80.

Definition acceptHi (s0 : Z) : Z :=
  if s0 =? 0xED then 0x9F else if s0 =? 0xF4 then 0x8F else 0xBF.

Definition isCont (b : Z) : bool := (0x80 <=? b) && (b <=? 0xBF).

(** [DecodeRuneInString]: the first rune of [s] and its width in
    bytes; invalid encodings give [(RuneError, 1)], the empty string
    [(RuneError, 0)]. *)
Definition DecodeRune (s : list ascii) : Z * Z :=
  let n := len s in
  if n <? 1 then (RuneError, 0) else
  let s0 := byteAt s 0 in
  if s0 <? RuneSelf then (s0, 1) else
  if (s0 <? 0xC2) || (0xF4 <? s0) then (RuneError, 1) else
  let sz := leadSize s0 in
  if n <? sz then (RuneError, 1) else
  let s1 := byteAt s 1 in
  if (s1 <? acceptLo s0) || (acceptHi s0 <? s1) then (RuneError, 1) else
  if sz <=? 2 then
    (Z.lor (Z.shiftl (Z.land s0 0x1F) 6) (Z.land s1 0x3F), 2)
  else
  let s2 := byteAt s 2 in
  if negb (isCont s2) then (RuneError, 1) else
  if sz <=? 3 then
    (Z.lor (Z.lor (Z.shiftl (Z.land s0 0x0F) 12)
                  (Z.shiftl (Z.land s1 0x3F) 6))
           (Z.land s2 0x3F), 3)
  else
  let s3 := byteAt s 3 in
  if negb (isCont s3) then (RuneError, 1) else
  (Z.lor (Z.lor (Z.lor (Z.shiftl (Z.land s0 0x07) 18)
                       (Z.shiftl (Z.land s1 0x3F) 12))
                (Z.shiftl (Z.land s2 0x3F) 6))
         (Z.land s3 0x3F), 4).

(** The backwards scan of [DecodeLastRuneInString]:
    [for start--; start >= lim; start-- { if RuneStart(s[start]) { break } }].
    At most [UTFMax - 1] positions lie between [lim] and [end - 2]. *)
Fixpoint scanBack (steps : nat) (s : list ascii) (lim start : Z) : Z :=
  match steps with
  | O => start
  | S k =>
      if start <? lim then start
      else if RuneStart (byteAt s start) then start
      else scanBack k s lim (start - 1)
  end.

(** [DecodeLastRuneInString] *)
Definition DecodeLastRune (s : list ascii) : Z * Z :=
  let e := len s in
  if e =? 0 then (RuneError, 0) else
  let r := byteAt s (e - 1) in
  if r <? RuneSelf then (r, 1) else
  let lim := Z.max 0 (e - UTFMax) in
  let start := scanBack 4 s lim (e - 2) in
  let start := if start <? 0 then 0 else start in
  let '(r, size) := DecodeRune (slice s start e) in
  if start + size =? e then (r, size) else (RuneError, 1).

End Utf8.

(** ** package unicode *)

Module Unicode.

Definition MaxLatin1 : Z := 0xFF.

(** The ranges of the [White_Space] table above Latin-1. *)
Definition White_Space_above_Latin1 (r : Z) : bool :=
  (r =? 0x1680) || ((0x2000 <=? r) && (r <=? 0x200A))
  || (r =? 0x2028) || (r =? 0x2029) || (r =? 0x202F)
  || (r =? 0x205F) || (r =? 0x3000).

(** [IsSpace] *)
Definition IsSpace (r : Z) : bool :=
  if r <=? MaxLatin1 then
    (r =? 9) || (r =? 10) || (r =? 11) || (r =? 12) || (r =? 13)
    || (r =? 32) || (r =? 0x85) || (r =? 0xA0)
  else White_Space_above_Latin1 r.

End Unicode.

(** ** package strings *)

Module Strings.

(** [HasPrefix(s, prefix)] *)
Fixpoint HasPrefix (s prefix : string) {struct prefix} : bool :=
  match prefix, s with
  | EmptyString, _ => true
  | String p prefix', String c s' =>
      if Ascii.eqb p c then HasPrefix s' prefix' else false
  | String _ _, EmptyString => false
  end.

(** [TrimPrefix(s, prefix)]: [s] without the leading [prefix], or [s]
    itself when it does not start with [prefix]. *)
Definition TrimPrefix (s prefix : string) : string :=
  if HasPrefix s prefix
  then String.substring (String.length prefix)
                        (String.length s - String.length prefix) s
  else s.

(** [SplitSeq(s, sep)] for a one-byte separator (the only use in the
    package is [sep = "\n"]): the pieces of [s] between occurrences of
    [sep], in order; a string without [sep] yields itself. *)
Fixpoint SplitSeq (s : string) (sep : ascii) : list string :=
  match s with
  | EmptyString => [EmptyString]
  | String c s' =>
      if Ascii.eqb c sep then EmptyString :: SplitSeq s' sep
      else match SplitSeq s' sep with
           | piece :: rest => String c piece :: rest
           | [] => [String c EmptyString]
           end
  end.

(** [asciiSpace]: '\t', '\n', '\v', '\f', '\r', ' '. *)
Definition asciiSpace (c : Z) : bool :=
  (c =? 9) || (c =? 10) || (c =? 11) || (c =? 12) || (c =? 13) || (c =? 32).

(** [indexFunc(s, unicode.IsSpace, false)], as the number of bytes to
    skip: the offset of the first rune that is not a space, or the
    whole length when every rune is one.  [fuel] bounds the runes
    visited; each visit consumes at least one byte. *)
Fixpoint leadingSpace (fuel : nat) (s : list ascii) : Z :=
  match fuel with
  | O => 0
  | S k =>
      match s with
      | [] => 0
      | _ :: _ =>
          let '(r, size) := Utf8.DecodeRune s in
          if Unicode.IsSpace r
          then size + leadingSpace k (skipn (Z.to_nat size) s)
          else 0
      end
  end.

(** [TrimLeftFunc(s, unicode.IsSpace)] *)
Definition TrimLeftSpace (s : list ascii) : list ascii :=
  skipn (Z.to_nat (leadingSpace (List.length s) s)) s.

(** [lastIndexFunc(s, unicode.IsSpace, false)] started at [i]:
    [for i > 0 { r, size := DecodeLastRuneInString(s[0:i]); i -= size;
                 if !IsSpace(r) { return i } }; return -1]. *)
Fixpoint lastIndexNotSpace (fuel : nat) (s : list ascii) (i : Z) : Z :=
  match fuel with
  | O => -1
  | S k =>
      if i <=? 0 then -1 else
      let '(r, size) := Utf8.DecodeLastRune (slice s 0 i) in
      let i := i - size in
      if Unicode.IsSpace r then lastIndexNotSpace k s i else i
  end.

(** [TrimRightFunc(s, unicode.IsSpace)] *)
Definition TrimRightSpace (s : list ascii) : list ascii :=
  let i := lastIndexNotSpace (S (List.length s)) s (len s) in
  let i :=
    if (0 <=? i) && (Utf8.RuneSelf <=? byteAt s i)
    then i + snd (Utf8.DecodeRune (slice s i (len s)))
    else i + 1 in
  slice s 0 i.

(** First loop of [TrimSpace]: scan ASCII spaces from the left.
    [inl rest]: stopped at an ASCII non-space (or the end), [rest]
    being [s[start:]]; [inr rest]: ran into a byte >= RuneSelf. *)
Fixpoint trimStart (s : list ascii) : list ascii + list ascii :=
  match s with
  | [] => inl []
  | c :: s' =>
      if Utf8.RuneSelf <=? byteval c then inr s
      else if asciiSpace (byteval c) then trimStart s'
      else inl s
  end.

(** Second loop of [TrimSpace], on the reversed remainder: scan ASCII
    spaces from the right. *)
Fixpoint trimStop (rs : list ascii) : list ascii + list ascii :=
  match rs with
  | [] => inl []
  | c :: rs' =>
      if Utf8.RuneSelf <=? byteval c then inr rs
      else if asciiSpace (byteval c) then trimStop rs'
      else inl rs
  end.

(** [TrimSpace(s)]: ASCII fast path, falling back to the Unicode
    aware trimming on the remaining bytes when a non-ASCII byte is
    met. *)
Definition TrimSpace (s : string) : string :=
  match trimStart (bytes_of s) with
  | inr rest => string_of (TrimRightSpace (TrimLeftSpace rest))
  | inl rest =>
      match trimStop (rev rest) with
      | inr rrest => string_of (TrimRightSpace (rev rrest))
      | inl rrest => string_of (rev rrest)
      end
  end.

End Strings.

(** ** commands.go *)

Definition newline : ascii := "010"%char.

(** [IsSlashCommand] checks if a comment body contains a slash command. *)
Definition IsSlashCommand (body : string) : bool :=
  existsb
    (fun line =>
       let line := Strings.TrimSpace line in
       Strings.HasPrefix line "/"
       && (1 <? Z.of_nat (String.length line))
       && negb (Strings.HasPrefix line "//"))
    (Strings.SplitSeq body newline).

(** ** Errors, log records, YAML values *)

(** A Go [error] is modelled by its message. *)
Abbreviation error := string (only parsing).

(** [fmt.Errorf("<prefix>: %w", err)] *)
Definition wrapError (prefix : string) (err : error) : error :=
  prefix ++ ": " ++ err.

(** A decoded YAML value, the dynamic content of a [map[string]any]. *)
Inductive yaml : Type :=
| YNull
| YBool (b : bool)
| YInt (z : Z)
| YString (s : string)
| YSeq (items : list yaml)
| YMap (fields : list (string * yaml)).

Inductive LogLevel := LevelDebug | LevelInfo | LevelWarn | LevelError.

Inductive LogValue :=
| VStr (s : string)
| VInt (z : Z)
| VAny (v : option yaml).

(** One [slog] record: level, message and key/value attributes. *)
Record LogRecord := {
  log_level : LogLevel;
  log_msg : string;
  log_attrs : list (string * LogValue)
}.

(** ** package encoding/hex *)

Module Hex.

Inductive DecodeError :=
| InvalidByteError (b : byte)
| ErrLength.

(** [reverseHexTable]: the value of a hexadecimal digit in either
    case, 0xff for every other byte. *)
Definition reverseHexTable (c : byte) : Z :=
  let v := byteval c in
  if (48 <=? v) && (v <=? 57) then v - 48          (* '0'..'9' *)
  else if (97 <=? v) && (v <=? 102) then v - 87    (* 'a'..'f' *)
  else if (65 <=? v) && (v <=? 70) then v - 55     (* 'A'..'F' *)
  else 0xff.

(** [Decode]: pairs of digits become bytes; the first invalid digit
    is reported, and only then an odd length. *)
Fixpoint Decode (src : list byte) : list byte + DecodeError :=
  match src with
  | [] => inl []
  | p :: [] =>
      if 0x0f <? reverseHexTable p then inr (InvalidByteError p)
      else inr ErrLength
  | p :: q :: rest =>
      let a := reverseHexTable p in
      let b := reverseHexTable q in
      if 0x0f <? a then inr (InvalidByteError p)
      else if 0x0f <? b then inr (InvalidByteError q)
      else match Decode rest with
           | inl dst => inl (byte_of (Z.lor (Z.shiftl a 4) b) :: dst)
           | inr e => inr e
           end
  end.

(** [DecodeString] *)
Definition DecodeString (s : string) : list byte + DecodeError :=
  Decode (bytes_of s).

Definition hextable : string := "0123456789abcdef".

Definition hexdigit (v : Z) : byte :=
  match String.get (Z.to_nat v) hextable with
  | Some c => c
  | None => "0"%char
  end.

(** [EncodeToString]: two lower-case digits per byte. *)
Fixpoint EncodeToString (src : list byte) : string :=
  match src with
  | [] => EmptyString
  | v :: rest =>
      String (hexdigit (Z.shiftr (byteval v) 4))
        (String (hexdigit (Z.land (byteval v) 0x0f)) (EncodeToString rest))
  end.

End Hex.

(** ** package crypto/subtle *)

Module Subtle.

(** [ConstantTimeByteEq(x, y uint8) int]:
    [int((uint32(x^y) - 1) >> 31)], the subtraction wrapping at 32
    bits. *)
Definition ConstantTimeByteEq (x y : Z) : Z :=
  Z.shiftr ((Z.lxor x y - 1) mod 2 ^ 32) 31.

(** The accumulator of [ConstantTimeCompare]:
    [for i := 0; i < len(x); i++ { v |= x[i] ^ y[i] }]. *)
Fixpoint accumulate (v : Z) (x y : list byte) : Z :=
  match x, y with
  | xi :: x', yi :: y' =>
      accumulate (Z.lor v (Z.lxor (byteval xi) (byteval yi))) x' y'
  | _, _ => v
  end.

(** [ConstantTimeCompare(x, y []byte) int]: 1 when the slices have
    the same length and contents, 0 otherwise. *)
Definition ConstantTimeCompare (x y : list byte) : Z :=
  if negb (len x =? len y) then 0
  else ConstantTimeByteEq (accumulate 0 x y) 0.

End Subtle.

(** ** package crypto/sha256 (FIPS 180-4) and crypto/hmac (RFC 2104)

    The reference implementation of the collaborator [hmac_sha256],
    used to run the program on concrete requests. *)

Module Sha256.

Definition BlockSize : nat := 64%nat.

Definition w32 (x : Z) : Z := x mod 2 ^ 32.

Definition rotr (n x : Z) : Z :=
  Z.lor (Z.shiftr x n) (w32 (Z.shiftl x (32 - n))).

Definition Ch (x y z : Z) : Z :=
  Z.lxor (Z.land x y) (Z.land (w32 (Z.lnot x)) z).
Definition Maj (x y z : Z) : Z :=
  Z.lxor (Z.lxor (Z.land x y) (Z.land x z)) (Z.land y z).
Definition bsig0 (x : Z) : Z :=
  Z.lxor (Z.lxor (rotr 2 x) (rotr 13 x)) (rotr 22 x).
Definition bsig1 (x : Z) : Z :=
  Z.lxor (Z.lxor (rotr 6 x) (rotr 11 x)) (rotr 25 x).
Definition ssig0 (x : Z) : Z :=
  Z.lxor (Z.lxor (rotr 7 x) (rotr 18 x)) (Z.shiftr x 3).
Definition ssig1 (x : Z) : Z :=
  Z.lxor (Z.lxor (rotr 17 x) (rotr 19 x)) (Z.shiftr x 10).

(** The constants are defined as the standard does: the first 32 bits
    of the fractional parts of the cube roots (for [K]) and of the
    square roots (for [H0]) of the first primes. *)
Definition is_prime (n : Z) : bool :=
  (1 <? n)
  && forallb (fun d => (n <? d * d) || negb (n mod d =? 0))
             (map Z.of_nat (seq 2 (Z.to_nat n - 2))).

Definition first_primes (count : nat) : list Z :=
  firstn count (filter is_prime (map Z.of_nat (seq 2 310))).

(** The integer root of degree [deg] of [n], bit by bit from bit [k]
    down. *)
Fixpoint root_bits (k : nat) (deg n r : Z) : Z :=
  match k with
  | O => r
  | S k' =>
      let c := r + 2 ^ Z.of_nat k' in
      root_bits k' deg n (if c ^ deg <=? n then c else r)
  end.

Definition iroot (deg n : Z) : Z := root_bits 48 deg n 0.

Definition K : list Z :=
  map (fun q => iroot 3 (q * 2 ^ 96) mod 2 ^ 32) (first_primes 64).

Definition H0 : list Z :=
  map (fun q => iroot 2 (q * 2 ^ 64) mod 2 ^ 32) (first_primes 8).

(** Big-endian bytes of a number, [n] of them. *)
Fixpoint be_bytes (n : nat) (x : Z) : list byte :=
  match n with
  | O => []
  | S k => byte_of (Z.shiftr x (8 * Z.of_nat k) mod 256) :: be_bytes k x
  end.

Definition be_word (bs : list byte) : Z :=
  fold_left (fun acc b => Z.lor (Z.shiftl acc 8) (byteval b)) bs 0.

(** The message followed by 0x80, zeros up to 56 modulo 64, and the
    bit length on 8 bytes. *)
Definition pad (msg : list byte) : list byte :=
  let l := Z.of_nat (List.length msg) in
  (msg ++ byte_of 0x80 :: repeat (byte_of 0) (Z.to_nat ((55 - l) mod 64))
       ++ be_bytes 8 (8 * l))%list.

(** The 16 words of a 64-byte block. *)
Fixpoint words (n : nat) (block : list byte) : list Z :=
  match n with
  | O => []
  | S k => be_word (firstn 4 block) :: words k (skipn 4 block)
  end.

(** The message schedule, most recent word first: [n] more words are
    added to [w]. *)
Fixpoint schedule (n : nat) (w : list Z) : list Z :=
  match n with
  | O => w
  | S k =>
      schedule k
        (w32 (ssig1 (nth 1 w 0) + nth 6 w 0 + ssig0 (nth 14 w 0) + nth 15 w 0)
           :: w)
  end.

Definition round (st : list Z) (kw : Z * Z) : list Z :=
  match st with
  | [a; b; c; d; e; f; g; h] =>
      let t1 := h + bsig1 e + Ch e f g + fst kw + snd kw in
      let t2 := bsig0 a + Maj a b c in
      [w32 (t1 + t2); a; b; c; w32 (d + t1); e; f; g]
  | _ => st
  end.

Definition compress (h : list Z) (block : list byte) : list Z :=
  let w := rev (schedule 48 (rev (words 16 block))) in
  let st := fold_left round (combine K w) h in
  map (fun p => w32 (fst p + snd p)) (combine h st).

Fixpoint blocks (n : nat) (h : list Z) (data : list byte) : list Z :=
  match n with
  | O => h
  | S k => blocks k (compress h (firstn BlockSize data)) (skipn BlockSize data)
  end.

(** [sha256.Sum256] *)
Definition Sum256 (msg : list byte) : list byte :=
  let data := pad msg in
  flat_map (be_bytes 4) (blocks (List.length data / BlockSize) H0 data).

End Sha256.

Module Hmac.

Definition xorPad (c : Z) (key : list byte) : list byte :=
  map (fun b => byte_of (Z.lxor (byteval b) c)) key.

(** [hmac.New(sha256.New, key)], [Write(msg)], [Sum(nil)]: keys
    longer than a block are hashed first, shorter ones are filled
    with zeros. *)
Definition Sum (key msg : list byte) : list byte :=
  let key :=
    if (Sha256.BlockSize <? List.length key)%nat then Sha256.Sum256 key
    else key in
  let key :=
    (key ++ repeat (byte_of 0) (Sha256.BlockSize - List.length key))%list in
  Sha256.Sum256
    (xorPad 0x5c key ++ Sha256.Sum256 (xorPad 0x36 key ++ msg))%list.

End Hmac.

(** ** config.go *)

Record AppConfig := {
  WebHookSecret : string;
  Port : string;
  DBPath : string;
  GitHubToken : string;
  Log : option (gmap string yaml);      (* [None] is the nil map *)
  Modules : option (gmap string yaml)
}.

(** [ValidateConfig] checks that all required config fields are present
    and valid; [None] is the nil error. *)
Definition ValidateConfig (config : AppConfig) : option error :=
  if String.eqb (WebHookSecret config) "" then
    Some "webhook secret must be set"
  else None.

(** [ApplyConfigDefaults] sets default values for optional config
    fields.  The Go function updates the struct behind the pointer; the
    updated struct is returned here. *)
Definition ApplyConfigDefaults (config : AppConfig) : AppConfig :=
  let port := if String.eqb (Port config) "" then "8080" else Port config in
  let dbPath :=
    if String.eqb (DBPath config) "" then "data.db" else DBPath config in
  let log :=
    match Log config with
    | None =>
        Some (<["level" := YString "info"]>
                (<["format" := YString "json"]> (∅ : gmap string yaml)))
    | Some l => Some l
    end in
  {| WebHookSecret := WebHookSecret config;
     Port := port;
     DBPath := dbPath;
     GitHubToken := GitHubToken config;
     Log := log;
     Modules := Modules config |}.

(** [config.Log["level"]]: reading a nil map yields the zero value. *)
Definition logField (config : AppConfig) (key : string) : option yaml :=
  match Log config with
  | Some l => l !! key
  | None => None
  end.

(** [len(config.Modules)] *)
Definition modulesConfigured (config : AppConfig) : Z :=
  match Modules config with
  | Some m => Z.of_nat (size m)
  | None => 0
  end.

(** The record written by [LogConfigSummary]. *)
Definition configSummary (config : AppConfig) : LogRecord :=
  {| log_level := LevelInfo;
     log_msg := "configuration loaded";
     log_attrs :=
       [("port", VStr (Port config));
        ("db_path", VStr (DBPath config));
        ("log_level", VAny (logField config "level"));
        ("modules_configured", VInt (modulesConfigured config))] |}.

(** ** External collaborators

    Code outside the package that the embedded functions call.  Each is
    a parameter: the theorems hold for every implementation. *)

Inductive Provider := TracerProvider | MeterProvider | LoggerProvider.

Class Collaborators := {
  (** decoded webhook events: the [any] handed to [HandleEvent] *)
  Event : Type;
  (** whatever module handlers read and write besides their arguments *)
  World : Type;
  (** [hmac.New(sha256.New, key)], [Write(msg)], [Sum(nil)] *)
  hmac_sha256 : list byte -> list byte -> list byte;
  (** [github.ParseWebHook(eventType, payload)] *)
  ParseWebHook : string -> list byte -> Event + error;
  (** [fmt.Sprintf("%T", event)] *)
  typeName : Event -> string;
  (** [os.Open(path)], as the file contents *)
  os_Open : string -> list byte + error;
  (** [yaml.NewDecoder(f).Decode(config)] *)
  yaml_Decode : list byte -> AppConfig + error;
  (** [http.Server.Shutdown(ctx)] *)
  server_Shutdown : option error;
  (** [Shutdown(ctx)] of an OpenTelemetry provider *)
  provider_Shutdown : Provider -> option error;
  (** [sql.DB.Close()] *)
  db_Close : option error
}.

Section Program.

Context {collab : Collaborators}.

(** ** modules.go: the module interface *)

(** How a call of [HandleEvent] ends: it returns an error value (nil
    or not), or it panics. *)
Inductive Outcome :=
| Returned (err : option error)
| Panicked (value : string).

(** [Module] is the Otto feature/module interface; [mod_Shutdown] is
    the optional [ModuleShutdowner] facet ([None] when the type
    assertion [mod.(ModuleShutdowner)] fails). *)
Record Module := {
  Name : string;
  HandleEvent : string -> Event -> list byte -> World -> World * Outcome;
  mod_Shutdown : option (World -> World * option error)
}.

(** ** The process state *)

(** Go maps are references: a [map[string]Module] value is a location
    of the heap. *)
Abbreviation loc := positive (only parsing).

(** A started goroutine that has not run yet.  [DispatchEvent] starts
    [go func(n string, m Module) { m.HandleEvent(eventType, event, raw) ... }(name, mod)]. *)
Inductive Goroutine :=
| GoHandleEvent (n : string) (m : Module)
                (eventType : string) (event : Event) (raw : list byte).

(** One invocation of a module's [HandleEvent]. *)
Record Call := {
  call_name : string;
  call_module : Module;
  call_eventType : string;
  call_event : Event;
  call_raw : list byte
}.

(** Calls that leave the package, in the order they happen. *)
Inductive Effect :=
| EffSpanStart (name : string)
| EffSpanEnd
| EffCounter (name : string) (attrs : list (string * string))
| EffHistogram (name : string) (attrs : list (string * string))
| EffParseWebHook (eventType : string) (payload : list byte)
| EffBodyClose
| EffServerShutdown
| EffModuleShutdown (name : string)
| EffProviderShutdown (p : Provider)
| EffDBClose.

Record Proc := {
  heap : gmap positive (gmap string Module);
  world : World;
  slog : list LogRecord;
  goroutines : list Goroutine;
  calls : list Call;
  trace : list Effect;
  providers : Provider -> bool;       (* the telemetry globals, non-nil? *)
  crashed : bool                      (* an unrecovered panic ended the process *)
}.

Definition set_heap (h : gmap positive (gmap string Module)) (p : Proc) : Proc :=
  {| heap := h; world := world p; slog := slog p;
     goroutines := goroutines p; calls := calls p; trace := trace p;
     providers := providers p; crashed := crashed p |}.

Definition set_world (w : World) (p : Proc) : Proc :=
  {| heap := heap p; world := w; slog := slog p;
     goroutines := goroutines p; calls := calls p; trace := trace p;
     providers := providers p; crashed := crashed p |}.

Definition set_slog (l : list LogRecord) (p : Proc) : Proc :=
  {| heap := heap p; world := world p; slog := l;
     goroutines := goroutines p; calls := calls p; trace := trace p;
     providers := providers p; crashed := crashed p |}.

Definition set_goroutines (g : list Goroutine) (p : Proc) : Proc :=
  {| heap := heap p; world := world p; slog := slog p;
     goroutines := g; calls := calls p; trace := trace p;
     providers := providers p; crashed := crashed p |}.

Definition set_calls (c : list Call) (p : Proc) : Proc :=
  {| heap := heap p; world := world p; slog := slog p;
     goroutines := goroutines p; calls := c; trace := trace p;
     providers := providers p; crashed := crashed p |}.

Definition set_trace (t : list Effect) (p : Proc) : Proc :=
  {| heap := heap p; world := world p; slog := slog p;
     goroutines := goroutines p; calls := calls p; trace := t;
     providers := providers p; crashed := crashed p |}.

Definition set_crashed (b : bool) (p : Proc) : Proc :=
  {| heap := heap p; world := world p; slog := slog p;
     goroutines := goroutines p; calls := calls p; trace := trace p;
     providers := providers p; crashed := b |}.

(** ** A state monad over the process *)

Definition M (A : Type) : Type := Proc -> A * Proc.

Definition ret {A} (x : A) : M A := fun p => (x, p).

Definition bind {A B} (m : M A) (k : A -> M B) : M B :=
  fun p => let '(x, p') := m p in k x p'.

Definition exec {A} (m : M A) (p : Proc) : Proc := snd (m p).
Definition eval {A} (m : M A) (p : Proc) : A := fst (m p).

End Program.

Notation "x <- m ;; k" := (bind m (fun x => k))
  (at level 100, m at next level, right associativity).
Notation "m ;; k" := (bind m (fun _ => k))
  (at level 100, right associativity).

Section Runtime.

Context {collab : Collaborators}.

Local Open Scope list_scope.

(** ** Primitive operations *)

Definition slog_write (lvl : LogLevel) (msg : string)
    (attrs : list (string * LogValue)) : M unit :=
  fun p =>
    (tt, set_slog (slog p ++ [{| log_level := lvl; log_msg := msg;
                                 log_attrs := attrs |}]) p).

Definition slog_Info := slog_write LevelInfo.
Definition slog_Error := slog_write LevelError.

Definition emit (e : Effect) : M unit :=
  fun p => (tt, set_trace (trace p ++ [e]) p).

(** [make(map[string]Module, n)]: a fresh, empty map. *)
Definition makeMap : M positive :=
  fun p =>
    let l := fresh (dom (heap p)) in
    (l, set_heap (<[l := ∅]> (heap p)) p).

(** The contents of the map at [l]; a nil map reads as empty. *)
Definition readMap (l : positive) : M (gmap string Module) :=
  fun p => (heap p !!! l, p).

(** [m[k] = v] *)
Definition mapStore (l : positive) (k : string) (v : Module) : M unit :=
  fun p => (tt, set_heap (alter (insert k v) l (heap p)) p).

(** [delete(m, k)] *)
Definition mapDelete (l : positive) (k : string) : M unit :=
  fun p => (tt, set_heap (alter (delete k) l (heap p)) p).

(** [for _, x := range xs { body(x) }] *)
Fixpoint forEach {A} (xs : list A) (body : A -> M unit) : M unit :=
  match xs with
  | [] => ret tt
  | x :: xs' => body x ;; forEach xs' body
  end.

(** [go f()]: the goroutine is started; it runs when scheduled. *)
Definition spawn (g : Goroutine) : M unit :=
  fun p => (tt, set_goroutines (goroutines p ++ [g]) p).

(** ** modules.go: the registry *)

(** The package variable [modules = make(map[string]Module)]. *)
Definition modules : positive := 1%positive.

(** The process after package initialisation. *)
Definition init_proc (w : World) : Proc :=
  {| heap := {[ modules := ∅ ]}; world := w; slog := [];
     goroutines := []; calls := []; trace := [];
     providers := fun _ => false; crashed := false |}.

(** [RegisterModule] adds a module to the global registry.  The
    function holds [modulesMu] for its whole body, so it is one atomic
    step. *)
Definition RegisterModule (m : Module) : M unit :=
  mods <- readMap modules ;;
  match mods !! Name m with
  | Some _ =>
      slog_Error "module registered twice" [("name", VStr (Name m))]
  | None =>
      mapStore modules (Name m) m ;;
      slog_Info "module registered" [("name", VStr (Name m))]
  end.

(** [GetModules] returns a copy of the registered modules map. *)
Definition GetModules : M positive :=
  mods <- readMap modules ;;
  modulesCopy <- makeMap ;;
  forEach (map_to_list mods)
          (fun '(name, m) => mapStore modulesCopy name m) ;;
  ret modulesCopy.

(** ** app.go *)

(** [App] encapsulates all application dependencies, as [NewApp]
    builds it: [Logger] is the root logger, whose records go to the
    process log [slog]; the HTTP server the app points back to is
    reached through [server_Shutdown]. *)
Record App := {
  Config : AppConfig;
  DB : option string;               (* [None] is the nil [*sql.DB] *)
  WebhookSecret : string;
  Addr : string
}.

(** [DispatchEvent] hands an event to all modules: one goroutine per
    module of the snapshot, none of which is awaited. *)
Definition DispatchEvent (a : App) (eventType : string) (event : Event)
    (raw : list byte) : M unit :=
  snapshot <- GetModules ;;
  mods <- readMap snapshot ;;
  forEach (map_to_list mods)
          (fun '(name, m) =>
             spawn (GoHandleEvent name m eventType event raw)).

(** The body of a dispatch goroutine:
    [if err := m.HandleEvent(eventType, event, raw); err != nil { a.Logger.Error(...) }].
    Nothing recovers a panic, so a panicking handler ends the
    process. *)
Definition run_goroutine (g : Goroutine) : M unit :=
  match g with
  | GoHandleEvent n m eventType event raw =>
      out <- (fun p =>
                let '(w, out) := HandleEvent m eventType event raw (world p) in
                (out, set_calls (calls p ++
                                   [{| call_name := n; call_module := m;
                                       call_eventType := eventType;
                                       call_event := event;
                                       call_raw := raw |}])
                        (set_world w p))) ;;
      match out with
      | Returned None => ret tt
      | Returned (Some err) =>
          slog_Error "Event handling error"
            [("module", VStr n); ("event", VStr eventType); ("err", VStr err)]
      | Panicked _ => fun p => (tt, set_crashed true p)
      end
  end.

(** *** Scheduling

    The Go scheduler runs started goroutines in any order.  A handler
    call is taken as one step. *)

(** One scheduler step: some started goroutine of a live process
    runs. *)
Inductive step : Proc -> Proc -> Prop :=
| step_run p g before after :
    crashed p = false ->
    goroutines p = before ++ g :: after ->
    step p (exec (run_goroutine g) (set_goroutines (before ++ after) p)).

(** The [i]-th element of [l], counted modulo its length, and the
    others. *)
Definition pick {A} (i : nat) (l : list A) : option (A * list A) :=
  let j := (i mod List.length l)%nat in
  match l !! j with
  | Some x => Some (x, take j l ++ drop (S j) l)
  | None => None
  end.

(** The scheduler as a function: each number of [sch] chooses the
    goroutine that runs next.  Every order of execution is the run of
    some [sch]. *)
Fixpoint run (sch : list nat) (p : Proc) : Proc :=
  match sch with
  | [] => p
  | i :: sch' =>
      if crashed p then p
      else match pick i (goroutines p) with
           | None => p
           | Some (g, rest) =>
               run sch' (exec (run_goroutine g) (set_goroutines rest p))
           end
  end.

(** *** Shutdown *)

(** [wg.Wait()] in [shutdownModules]: the [n] started goroutines
    [if err := m.Shutdown(ctx); err != nil { a.Logger.Error(...); errors <- err }]
    all run, in the order [sch] chooses; [errors] is the buffered
    channel, oldest value first. *)
Fixpoint waitShutdowns (n : nat) (sch : list nat)
    (pending : list (string * (World -> World * option error)))
    (errors : list error) : M (list error) :=
  match n with
  | O => ret errors
  | S k =>
      match pick (hd O sch) pending with
      | None => ret errors
      | Some ((name, shutdown), rest) =>
          emit (EffModuleShutdown name) ;;
          r <- (fun p => let '(w, r) := shutdown (world p) in
                         (r, set_world w p)) ;;
          match r with
          | None => waitShutdowns k (tl sch) rest errors
          | Some err =>
              slog_Error "Module shutdown error"
                [("name", VStr name); ("err", VStr err)] ;;
              waitShutdowns k (tl sch) rest (errors ++ [err])
          end
      end
  end.

(** The modules of a snapshot that implement [ModuleShutdowner]. *)
Definition shutdowners (mods : gmap string Module)
    : list (string * (World -> World * option error)) :=
  omap (fun '(name, m) =>
          match mod_Shutdown m with
          | Some f => Some (name, f)
          | None => None
          end)
       (map_to_list mods).

(** [shutdownModules] gracefully shuts down all modules and returns
    the first error if any. *)
Definition shutdownModules (a : App) (sch : list nat) : M (option error) :=
  snapshot <- GetModules ;;
  mods <- readMap snapshot ;;
  let pending := shutdowners mods in
  errors <- waitShutdowns (List.length pending) sch pending [] ;;
  ret (head errors).

(** ** telemetry.go *)

Definition shutdownProvider (pr : Provider) : M (option error) :=
  fun p =>
    if providers p pr
    then (provider_Shutdown pr, exec (emit (EffProviderShutdown pr)) p)
    else (None, p).

(** [ShutdownTelemetry] shuts down all providers, stopping at the
    first that fails. *)
Definition ShutdownTelemetry : M (option error) :=
  r <- shutdownProvider TracerProvider ;;
  match r with
  | Some err => ret (Some err)
  | None =>
      r <- shutdownProvider MeterProvider ;;
      match r with
      | Some err => ret (Some err)
      | None =>
          r <- shutdownProvider LoggerProvider ;;
          match r with
          | Some err => ret (Some err)
          | None => ret None
          end
      end
  end.

Definition logIfErr (msg : string) (r : option error) : M unit :=
  match r with
  | Some err => slog_Error msg [("err", VStr err)]
  | None => ret tt
  end.

(** [App.Shutdown] gracefully stops all application services. *)
Definition App_Shutdown (a : App) (sch : list nat) : M (option error) :=
  (* Shutdown server *)
  emit EffServerShutdown ;;
  logIfErr "Error during server shutdown" server_Shutdown ;;
  (* Shutdown modules *)
  r <- shutdownModules a sch ;;
  logIfErr "Error during module shutdown" r ;;
  (* Shutdown telemetry *)
  r <- ShutdownTelemetry ;;
  logIfErr "Error during telemetry shutdown" r ;;
  (* Close database *)
  match DB a with
  | Some _ =>
      emit EffDBClose ;;
      logIfErr "Error closing database" db_Close
  | None => ret tt
  end ;;
  ret None.

(** ** config.go: loading *)

(** [LoadConfigFromFile] reads YAML config from path into an
    [AppConfig] struct. *)
Definition LoadConfigFromFile (path : string) : M (AppConfig + error) :=
  match os_Open path with
  | inr err => ret (inr (wrapError "failed to open config file" err))
  | inl f =>
      match yaml_Decode f with
      | inr err => ret (inr (wrapError "failed to decode config" err))
      | inl config =>
          match ValidateConfig config with
          | Some err => ret (inr err)
          | None =>
              let config := ApplyConfigDefaults config in
              (fun p => (tt, set_slog (slog p ++ [configSummary config]) p)) ;;
              ret (inl config)
          end
      end
  end.

End Runtime.

(** ** package net/http: requests and response writers *)

Record Request := {
  Method : string;
  Path : string;
  Header : gmap string string;
  (** the outcome of [io.ReadAll(r.Body)] *)
  Body : list byte + error
}.

(** [r.Header.Get(key)]: the value, or the empty string.  Header names
    are matched in canonical form; [Header] is keyed by the names the
    handler asks for. *)
Definition Header_Get (r : Request) (key : string) : string :=
  default "" (Header r !! key).

(** What has been written to an [http.ResponseWriter]: the status line,
    once sent, and the body. *)
Record ResponseWriter := {
  status : option Z;
  written : string
}.

Definition newResponse : ResponseWriter := {| status := None; written := "" |}.

Definition StatusOK : Z := 200.
Definition StatusBadRequest : Z := 400.
Definition StatusUnauthorized : Z := 401.

(** [w.WriteHeader(code)]: only the first call sends a status. *)
Definition WriteHeader (code : Z) (w : ResponseWriter) : ResponseWriter :=
  match status w with
  | Some _ => w
  | None => {| status := Some code; written := written w |}
  end.

(** [w.Write(data)]: sends [200 OK] first when no status was sent. *)
Definition Write (data : string) (w : ResponseWriter) : ResponseWriter :=
  let w := WriteHeader StatusOK w in
  {| status := status w; written := written w ++ data |}.

(** [http.Error(w, msg, code)] *)
Definition http_Error (w : ResponseWriter) (msg : string) (code : Z)
    : ResponseWriter :=
  Write (msg ++ String newline "") (WriteHeader code w).

(** ** server.go *)

Section ServerProgram.

Context {collab : Collaborators}.

Record Server := {
  webhookSecret : list byte;      (* from env/config *)
  server_Addr : string;
  app : option App                (* [None] is the nil [*App] *)
}.

(** [NewServerWithApp] creates a server with a reference to the app. *)
Definition NewServerWithApp (secret addr : string) (a : option App) : Server :=
  {| webhookSecret := bytes_of secret;
     server_Addr := ":" ++ addr;
     app := a |}.

Definition NewServer (secret addr : string) : Server :=
  NewServerWithApp secret addr None.

(** [verifySignature] checks the request payload using the shared
    secret (GitHub webhook HMAC SHA256). *)
Definition verifySignature (s : Server) (payload : list byte) (sig : string)
    : bool :=
  if negb (Strings.HasPrefix sig "sha256=") then false
  else
    let sig := Strings.TrimPrefix sig "sha256=" in
    let expectedMAC := hmac_sha256 (webhookSecret s) payload in
    match Hex.DecodeString sig with
    | inr _ => false
    | inl receivedMAC =>
        Subtle.ConstantTimeCompare receivedMAC expectedMAC =? 1
    end.

(** [github.WebHookType(r)] *)
Definition WebHookType (r : Request) : string := Header_Get r "X-GitHub-Event".

(** Server metrics helpers of telemetry.go.  The latency value is a
    clock reading and is left out. *)
Definition IncServerRequest (handler : string) : M unit :=
  emit (EffCounter "otto.server.requests_total" [("handler", handler)]).
Definition IncServerWebhook (eventType : string) : M unit :=
  emit (EffCounter "otto.server.webhooks_total" [("event_type", eventType)]).
Definition IncServerError (handler errType : string) : M unit :=
  emit (EffCounter "otto.server.errors_total"
          [("handler", handler); ("err_type", errType)]).
Definition RecordServerLatency (handler : string) : M unit :=
  emit (EffHistogram "otto.server.request_latency_ms" [("handler", handler)]).


(** [handleWebhook] verifies signature and decodes GitHub webhook
    request.  The deferred [span.End()] and [r.Body.Close()] run when
    the function returns, last deferred first. *)
Definition handleWebhook (s : Server) (w : ResponseWriter) (r : Request)
    : M ResponseWriter :=
  let eventType := WebHookType r in
  emit (EffSpanStart ("server.handle_" ++ eventType)) ;;
  IncServerRequest "webhook" ;;
  IncServerWebhook eventType ;;
  match Body r with
  | inr _ =>
      IncServerError "webhook" "readBody" ;;
      RecordServerLatency "webhook" ;;
      emit EffSpanEnd ;;
      ret (http_Error w "could not read body" StatusBadRequest)
  | inl payload =>
      let sig := Header_Get r "X-Hub-Signature-256" in
      if negb (verifySignature s payload sig) then
        IncServerError "webhook" "badSig" ;;
        RecordServerLatency "webhook" ;;
        emit EffBodyClose ;; emit EffSpanEnd ;;
        ret (http_Error w "invalid signature" StatusUnauthorized)
      else
        let eventType := WebHookType r in
        emit (EffParseWebHook eventType payload) ;;
        match ParseWebHook eventType payload with
        | inr _ =>
            IncServerError "webhook" "parseEvent" ;;
            RecordServerLatency "webhook" ;;
            emit EffBodyClose ;; emit EffSpanEnd ;;
            ret (http_Error w "could not parse event" StatusBadRequest)
        | inl event =>
            slog_Info "received event"
              [("type", VStr eventType); ("struct", VStr (typeName event))] ;;
            (* Dispatch event to all modules *)
            match app s with
            | Some a => DispatchEvent a eventType event payload
            | None =>
                slog_Error "No app reference in server, event dispatch failed" []
            end ;;
            RecordServerLatency "webhook" ;;
            emit EffBodyClose ;; emit EffSpanEnd ;;
            ret (WriteHeader StatusOK w)
        end
  end.


End ServerProgram.

(** ** Vocabulary of the statements *)




(** The default log block: exactly the two keys [level] and [format]. *)
Definition default_log (l : gmap string yaml) : Prop :=
  l !! "level" = Some (YString "info")
  /\ l !! "format" = Some (YString "json")
  /\ size l = 2%nat.

(** The hexadecimal digits, in either case, and their values. *)
Definition hex_digits : list (ascii * Z) :=
  [ ("0"%char, 0); ("1"%char, 1); ("2"%char, 2); ("3"%char, 3);
    ("4"%char, 4); ("5"%char, 5); ("6"%char, 6); ("7"%char, 7);
    ("8"%char, 8); ("9"%char, 9);
    ("a"%char, 10); ("b"%char, 11); ("c"%char, 12);
    ("d"%char, 13); ("e"%char, 14); ("f"%char, 15);
    ("A"%char, 10); ("B"%char, 11); ("C"%char, 12);
    ("D"%char, 13); ("E"%char, 14); ("F"%char, 15) ].

(** [hex_encoding h bs]: the string [h] writes the bytes [bs] in
    hexadecimal, two digits per byte, most significant first. *)
Inductive hex_encoding : string -> list byte -> Prop :=
| hex_encoding_nil : hex_encoding "" []
| hex_encoding_cons c1 c2 hi lo h bs :
    In (c1, hi) hex_digits ->
    In (c2, lo) hex_digits ->
    hex_encoding h bs ->
    hex_encoding (String c1 (String c2 h)) (byte_of (16 * hi + lo) :: bs).



(** Insertions of a list of bindings, first to last. *)
Definition insert_all {collab : Collaborators} (kvs : list (string * Module))
    (acc : gmap string Module) : gmap string Module :=
  foldl (fun acc kv => <[fst kv := snd kv]> acc) acc kvs.

(** Operations a caller may apply to a map it holds. *)
Inductive MapOp {collab : Collaborators} :=
| OpStore (k : string) (v : Module)
| OpDelete (k : string).

Definition apply_op {collab : Collaborators} (l : positive) (op : MapOp)
    : M unit :=
  match op with
  | OpStore k v => mapStore l k v
  | OpDelete k => mapDelete l k
  end.

(** The call a started goroutine makes when it runs. *)
Definition call_of {collab : Collaborators} (g : Goroutine) : Call :=
  match g with
  | GoHandleEvent n m eventType event raw =>
      {| call_name := n; call_module := m; call_eventType := eventType;
         call_event := event; call_raw := raw |}
  end.

(** The calls that deliver [(eventType, event, raw)] once to every
    module of [mods]. *)
Definition deliveries {collab : Collaborators} (mods : gmap string Module)
    (eventType : string) (event : Event) (raw : list byte) : list Call :=
  map (fun nm => {| call_name := fst nm; call_module := snd nm;
                    call_eventType := eventType; call_event := event;
                    call_raw := raw |})
      (map_to_list mods).





(** [results] records one run of the module shutdowns of [mods]: every
    module with a [Shutdown] appears once, in the order of completion,
    with what its [Shutdown] returned. *)
Definition shutdown_results {collab : Collaborators}
    (pending : list (string * (World -> World * option error)))
    (results : list (string * option error)) : Prop :=
  Permutation (map fst results) (map fst pending)
  /\ forall name r, In (name, r) results ->
       exists f w w', In (name, f) pending /\ f w = (w', r).

(** The errors of a run, as [(module, error)], in order. *)
Definition failures (results : list (string * option error))
    : list (string * error) :=
  omap (fun nr => match snd nr with
                  | Some err => Some (fst nr, err)
                  | None => None
                  end) results.

Definition shutdown_error_record (ne : string * error) : LogRecord :=
  {| log_level := LevelError;
     log_msg := "Module shutdown error";
     log_attrs := [("name", VStr (fst ne)); ("err", VStr (snd ne))] |}.

Definition error_record (msg : string) (err : error) : LogRecord :=
  {| log_level := LevelError; log_msg := msg;
     log_attrs := [("err", VStr err)] |}.

Definition provider_effect {collab : Collaborators} (e : Effect) : Prop :=
  exists pr, e = EffProviderShutdown pr.

(** The decoder of webhook events was called. *)
Definition parse_effect {collab : Collaborators} (e : Effect) : Prop :=
  exists eventType payload, e = EffParseWebHook eventType payload.

(** The goroutines [DispatchEvent] starts for the registry [mods]. *)
Definition dispatched {collab : Collaborators} (mods : gmap string Module)
    (eventType : string) (event : Event) (raw : list byte) : list Goroutine :=
  map (fun nm => GoHandleEvent (fst nm) (snd nm) eventType event raw)
      (map_to_list mods).

(** Executions: any number of scheduler steps. *)
Definition steps {collab : Collaborators} : Proc -> Proc -> Prop := rtc step.

(** ** Test doubles

    Concrete collaborators and modules, after [mockModule] of
    modules_test.go, on which the program is run. *)

Definition known_events : list string := ["ping"; "push"; "issue_comment"].

Definition sample_config : AppConfig :=
  {| WebHookSecret := "It's a Secret to Everybody";
     Port := ""; DBPath := ""; GitHubToken := "";
     Log := None; Modules := None |}.

Definition test_collab : Collaborators :=
  {| Event := string * list byte;
     World := gmap string nat;          (* [handled] of each mock, by name *)
     hmac_sha256 := Hmac.Sum;
     ParseWebHook := fun eventType payload =>
       if existsb (String.eqb eventType) known_events
       then inl (eventType, payload)
       else inr ("unknown X-Github-Event in message: " ++ eventType);
     typeName := fun e => "*github." ++ fst e;
     os_Open := fun path =>
       if String.eqb path "otto.yaml"
       then inl (bytes_of "web_hook_secret: It's a Secret to Everybody")
       else inr ("open " ++ path ++ ": no such file or directory");
     yaml_Decode := fun f =>
       if String.eqb (string_of f) "web_hook_secret: It's a Secret to Everybody"
       then inl sample_config
       else inr "yaml: unmarshal errors";
     server_Shutdown := None;
     provider_Shutdown := fun _ => None;
     db_Close := None |}.

(** [mockModule]: counts the events it handled and returns nil. *)
Definition mockModule (name : string) : @Module test_collab :=
  @Build_Module test_collab name
    (fun _ _ _ (w : gmap string nat) =>
       (<[name := S (default O (w !! name))]> w, Returned None))
    None.

(** A module whose handler returns an error. *)
Definition errModule (name : string) : @Module test_collab :=
  @Build_Module test_collab name
    (fun _ _ _ (w : gmap string nat) => (w, Returned (Some "handler failed")))
    None.


(** A module whose [Shutdown] returns an error. *)
Definition failingShutdownModule (name : string) : @Module test_collab :=
  @Build_Module test_collab name
    (fun _ _ _ (w : gmap string nat) => (w, Returned None))
    (Some (fun (w : gmap string nat) => (w, Some "shutdown failed"))).

Definition test_app : App :=
  {| Config := ApplyConfigDefaults sample_config;
     DB := Some "data.db";
     WebhookSecret := "It's a Secret to Everybody";
     Addr := "8080" |}.

(** The example of GitHub's webhook documentation. *)
Definition sample_payload : list byte := bytes_of "Hello, World!".
Definition sample_signature : string :=
  "sha256=757107ea0eb2509fc211221cce984b8a37570b6d7586c22c46f4379c8b043e17".

Definition sample_request : Request :=
  {| Method := "POST"; Path := "/webhook";
     Header := <["X-GitHub-Event" := "ping"]>
                 (<["X-Hub-Signature-256" := sample_signature]> ∅);
     Body := inl sample_payload |}.

Definition sample_event : @Event test_collab := ("ping", sample_payload).

(** A registry with a module that returns an error next to one that
    succeeds. *)
Definition erring_proc : @Proc test_collab :=
  exec (RegisterModule (mockModule "testmod"))
    (exec (RegisterModule (errModule "failing")) (init_proc ∅)).


(** A registry with a module whose shutdown fails next to one without
    shutdown. *)
Definition failing_shutdown_proc : @Proc test_collab :=
  exec (RegisterModule (mockModule "testmod"))
    (exec (RegisterModule (failingShutdownModule "failing")) (init_proc ∅)).

(** ** Vocabulary of further statements *)

(** A hexadecimal letter in upper case; other bytes are left alone. *)
Definition upper_hex (c : ascii) : ascii :=
  let v := byteval c in
  if (97 <=? v) && (v <=? 102) then byte_of (v - 32) else c.

Fixpoint map_string (f : ascii -> ascii) (s : string) : string :=
  match s with
  | EmptyString => EmptyString
  | String c s' => String (f c) (map_string f s')
  end.

(** The registry of [p] binds every name to a module of that name. *)
Definition registry_keys_are_names {collab : Collaborators} (p : Proc) : Prop :=
  forall n m, (heap p !!! modules) !! n = Some m -> Name m = n.

(** The first module of [ms] whose name is [n]. *)
Fixpoint first_named {collab : Collaborators} (n : string) (ms : list Module)
    : option Module :=
  match ms with
  | [] => None
  | m :: ms' => if String.eqb (Name m) n then Some m else first_named n ms'
  end.

(** Effects of the webhook handler, by kind. *)
Definition is_counter (name : string) (e : Effect)
    : bool :=
  match e with
  | EffCounter name' _ => String.eqb name name'
  | _ => false
  end.

Definition is_latency (e : Effect) : bool :=
  match e with
  | EffHistogram _ _ => true
  | _ => false
  end.

Definition is_body_close (e : Effect) : bool :=
  match e with
  | EffBodyClose => true
  | _ => false
  end.

Definition count_effects (f : Effect -> bool)
    (effects : list Effect) : nat :=
  List.length (filter f effects).

(** One registration, on the contents of the registry. *)
Definition register_one {collab : Collaborators} (m : Module)
    (reg : gmap string Module) : gmap string Module :=
  match reg !! Name m with
  | Some _ => reg
  | None => <[Name m := m]> reg
  end.

(** Registrations of a list of modules, first to last. *)
Definition register_all {collab : Collaborators} (ms : list Module)
    (reg : gmap string Module) : gmap string Module :=
  foldl (fun reg m => register_one m reg) reg ms.


(** The providers in the order [ShutdownTelemetry] visits them. *)
Definition provider_order : list Provider :=
  [TracerProvider; MeterProvider; LoggerProvider].

(** Shutting the providers [prs] down one after the other, up to the
    first failure: the providers that were shut down, and the error. *)
Fixpoint shutdown_in_order {collab : Collaborators} (prs : list Provider)
    : list Provider * option error :=
  match prs with
  | [] => ([], None)
  | pr :: rest =>
      match provider_Shutdown pr with
      | Some err => ([pr], Some err)
      | None =>
          let '(done, r) := shutdown_in_order rest in (pr :: done, r)
      end
  end.

Definition is_server_shutdown (e : Effect) : bool :=
  match e with
  | EffServerShutdown => true
  | _ => false
  end.

Definition is_module_shutdown (name : string)
    (e : Effect) : bool :=
  match e with
  | EffModuleShutdown name' => String.eqb name name'
  | _ => false
  end.

Definition is_db_close (e : Effect) : bool :=
  match e with
  | EffDBClose => true
  | _ => false
  end.

(** Collaborators whose meter provider fails to shut down. *)
Definition failing_meter_collab : Collaborators :=
  {| Event := @Event test_collab;
     World := @World test_collab;
     hmac_sha256 := @hmac_sha256 test_collab;
     ParseWebHook := @ParseWebHook test_collab;
     typeName := @typeName test_collab;
     os_Open := @os_Open test_collab;
     yaml_Decode := @yaml_Decode test_collab;
     server_Shutdown := None;
     provider_Shutdown := fun pr =>
       match pr with
       | MeterProvider => Some "context deadline exceeded"
       | _ => None
       end;
     db_Close := None |}.

(** A process whose telemetry was initialised. *)
Definition telemetry_proc : @Proc failing_meter_collab :=
  @Build_Proc failing_meter_collab {[ modules := ∅ ]} ∅ [] [] [] []
    (fun _ => true) false.

(** ** config.go, db.go, telemetry.go, app.go: start-up

    The functions that bring the application up work on package
    variables besides the registry. *)

(** Code outside the package that the start-up functions call.  Each
    is a parameter, like the collaborators above. *)
Class Platform {collab : Collaborators} := {
  (** [sql.Open("sqlite3", dataSourceName)]: the error it returns; the
      handle is named by its data source *)
  sql_Open : string -> option error;
  (** [db.Ping()] of the handle opened on a data source *)
  db_Ping : string -> option error;
  (** [resource.Merge(resource.Default(), ...)] *)
  resource_Merge : option error;
  (** [otlptracehttp.New(ctx)], [otlpmetrichttp.New(ctx)],
      [otlploghttp.New(ctx)] *)
  otlptracehttp_New : option error;
  otlpmetrichttp_New : option error;
  otlploghttp_New : option error;
  (** [meter.Int64Counter(name, ...)], [meter.Float64Histogram(name, ...)] *)
  meter_instrument : string -> option error;
  (** the optional [ModuleInitializer] facet of a module ([None] when
      the type assertion [mod.(ModuleInitializer)] fails) *)
  mod_Initialize : Module -> option (App -> World -> World * option error)
}.

(** How a call ends: it returns, or it panics. *)
Inductive Res (A : Type) : Type :=
| Done (a : A)
| Panic (value : error).

Arguments Done {A} a.
Arguments Panic {A} value.

Section Startup.

Context {collab : Collaborators} {platform : Platform}.

Local Open Scope list_scope.

(** The process with the package variables [GlobalConfig], [db],
    [dbOnce] and [metricsOnce], the calls of [sql.Open] so far, and
    the addresses of the servers started with [go a.server.Start()]. *)
Record Sys := {
  proc : Proc;
  GlobalConfig : AppConfig;
  db : option string;               (* [None] is the nil [*sql.DB] *)
  dbOnce : bool;                    (* [dbOnce.Do] has run *)
  metricsOnce : bool;               (* [metricsOnce.Do] has run *)
  opened : list string;
  serving : list string
}.

Definition set_proc (p : Proc) (s : Sys) : Sys :=
  {| proc := p; GlobalConfig := GlobalConfig s; db := db s;
     dbOnce := dbOnce s; metricsOnce := metricsOnce s;
     opened := opened s; serving := serving s |}.

Definition set_GlobalConfig (c : AppConfig) (s : Sys) : Sys :=
  {| proc := proc s; GlobalConfig := c; db := db s;
     dbOnce := dbOnce s; metricsOnce := metricsOnce s;
     opened := opened s; serving := serving s |}.

Definition set_db (d : option string) (s : Sys) : Sys :=
  {| proc := proc s; GlobalConfig := GlobalConfig s; db := d;
     dbOnce := dbOnce s; metricsOnce := metricsOnce s;
     opened := opened s; serving := serving s |}.

Definition set_dbOnce (b : bool) (s : Sys) : Sys :=
  {| proc := proc s; GlobalConfig := GlobalConfig s; db := db s;
     dbOnce := b; metricsOnce := metricsOnce s;
     opened := opened s; serving := serving s |}.

Definition set_metricsOnce (b : bool) (s : Sys) : Sys :=
  {| proc := proc s; GlobalConfig := GlobalConfig s; db := db s;
     dbOnce := dbOnce s; metricsOnce := b;
     opened := opened s; serving := serving s |}.

Definition set_opened (o : list string) (s : Sys) : Sys :=
  {| proc := proc s; GlobalConfig := GlobalConfig s; db := db s;
     dbOnce := dbOnce s; metricsOnce := metricsOnce s;
     opened := o; serving := serving s |}.

Definition set_serving (l : list string) (s : Sys) : Sys :=
  {| proc := proc s; GlobalConfig := GlobalConfig s; db := db s;
     dbOnce := dbOnce s; metricsOnce := metricsOnce s;
     opened := opened s; serving := l |}.

Definition set_providers (f : Provider -> bool) (p : Proc) : Proc :=
  {| heap := heap p; world := world p; slog := slog p;
     goroutines := goroutines p; calls := calls p; trace := trace p;
     providers := f; crashed := crashed p |}.

(** The state monad of start-up; a panic skips what follows. *)
Definition Boot (A : Type) : Type := Sys -> Res A * Sys.

Definition bret {A} (x : A) : Boot A := fun s => (Done x, s).

Definition bbind {A B} (m : Boot A) (k : A -> Boot B) : Boot B :=
  fun s =>
    match m s with
    | (Done x, s') => k x s'
    | (Panic v, s') => (Panic v, s')
    end.

Definition lift {A} (m : M A) : Boot A :=
  fun s => let '(x, p) := m (proc s) in (Done x, set_proc p s).

End Startup.

Notation "x <~ m ;; k" := (bbind m (fun x => k))
  (at level 100, m at next level, right associativity).
Notation "m >>; k" := (bbind m (fun _ => k))
  (at level 100, right associativity).

Section StartupProgram.

Context {collab : Collaborators} {platform : Platform}.

Local Open Scope list_scope.

(** *** config.go *)

(** [LoadConfig] reads YAML config from path into [GlobalConfig]. *)
Definition LoadConfig (path : string) : Boot (option error) :=
  r <~ lift (LoadConfigFromFile path) ;;
  match r with
  | inr err => bret (Some err)
  | inl config =>
      (fun s => (Done tt, set_GlobalConfig config s)) >>;
      bret None
  end.

(** *** db.go *)

(** [InitDB] opens the global DB connection using the configured
    database path.  The body of [dbOnce.Do] runs in the first call
    only; [err] is a variable of the call. *)
Definition InitDB : Boot (option string * option error) :=
  fun s =>
    if dbOnce s then (Done (db s, None), s)
    else
      let dbPath := DBPath (GlobalConfig s) in
      let s := set_dbOnce true (set_opened (opened s ++ [dbPath]) s) in
      match sql_Open dbPath with
      | Some err =>
          (Done (None, Some (wrapError "failed to open database" err)),
           set_db None s)
      | None =>
          let s := set_db (Some dbPath) s in
          (* Verify connection *)
          match db_Ping dbPath with
          | Some pingErr =>
              (Done (Some dbPath,
                     Some (wrapError "failed to connect to database" pingErr)),
               set_proc (exec (emit EffDBClose) (proc s)) s)
          | None => (Done (Some dbPath, None), s)
          end
      end.

(** [GetDB] returns the shared [*sql.DB]. *)
Definition GetDB : Boot (option string) :=
  fun s => (Done (db s), s).

(** [OpenDB] opens a new database connection with the given path. *)
Definition OpenDB (dbPath : string) : Boot (option string * option error) :=
  fun s =>
    let s := set_opened (opened s ++ [dbPath]) s in
    match sql_Open dbPath with
    | Some err => (Done (None, Some (wrapError "failed to open database" err)), s)
    | None =>
        (* Verify connection *)
        match db_Ping dbPath with
        | Some err =>
            (Done (None, Some (wrapError "failed to connect to database" err)),
             set_proc (exec (emit EffDBClose) (proc s)) s)
        | None => (Done (Some dbPath, None), s)
        end
    end.

(** *** telemetry.go *)

(** The instruments of [InitOttoMetrics], in the order they are
    created. *)
Definition instruments : list string :=
  ["otto.server.requests_total"; "otto.server.webhooks_total";
   "otto.server.errors_total"; "otto.server.request_latency_ms";
   "otto.module.commands_total"; "otto.module.errors_total";
   "otto.module.ack_latency_ms"].

(** [x, err = meter...(name); if err != nil { panic(err) }], one
    instrument after the other. *)
Fixpoint createInstruments (names : list string) : Boot unit :=
  match names with
  | [] => bret tt
  | name :: rest =>
      match meter_instrument name with
      | Some err => fun s => (Panic err, s)
      | None => createInstruments rest
      end
  end.

(** [metricsOnce.Do(...)]: a [Do] whose function panics counts as
    done. *)
Definition InitOttoMetrics : Boot unit :=
  fun s =>
    if metricsOnce s then (Done tt, s)
    else createInstruments instruments (set_metricsOnce true s).

(** [InitTelemetry] configures global OpenTelemetry providers for
    Otto, including traces, metrics, logs, and slog bridge. *)
Definition InitTelemetry : Boot (option error) :=
  InitOttoMetrics >>;
  match resource_Merge with
  | Some err => bret (Some (wrapError "failed to initialize otel resource" err))
  | None =>
      match otlptracehttp_New with
      | Some err =>
          bret (Some (wrapError "failed to create otlp trace exporter" err))
      | None =>
          match otlpmetrichttp_New with
          | Some err =>
              bret (Some (wrapError "failed to create otlp metric exporter" err))
          | None =>
              match otlploghttp_New with
              | Some err =>
                  bret (Some (wrapError "failed to create otlp log exporter" err))
              | None =>
                  lift (fun p => (tt, set_providers (fun _ => true) p)) >>;
                  lift (slog_Info
                          "[otto] OpenTelemetry (trace, metric, log+slog bridge) initialized"
                          []) >>;
                  bret None
              end
          end
      end
  end.

(** *** app.go *)

(** [NewApp] creates and initializes a new application instance.  The
    result is the application together with the server it holds
    ([app.server]). *)
Definition NewApp (configPath : string)
    : Boot (option (App * Server) * option error) :=
  (* Load configuration *)
  r <~ lift (LoadConfigFromFile configPath) ;;
  match r with
  | inr err => bret (None, Some err)
  | inl config =>
      (* Initialize GitHub client *)
      (if negb (String.eqb (GitHubToken config) "")
       then lift (slog_Info "GitHub client initialized with authentication" [])
       else lift (slog_Info "GitHub client initialized (no auth)" [])) >>;
      (* Initialize telemetry *)
      r <~ InitTelemetry ;;
      match r with
      | Some err => bret (None, Some err)
      | None =>
          (* Initialize database *)
          r <~ InitDB ;;
          match snd r with
          | Some err => bret (None, Some err)
          | None =>
              let a := {| Config := config; DB := fst r;
                          WebhookSecret := WebHookSecret config;
                          Addr := Port config |} in
              (* Create HTTP server with app reference *)
              bret (Some (a, NewServerWithApp (WebhookSecret a) (Addr a) (Some a)),
                    None)
          end
      end
  end.

(** The loop of [initializeModules]: the modules of the snapshot are
    visited in the order [sch] chooses (a Go map is ranged over in no
    fixed order), and the first failing [Initialize] ends the loop. *)
Fixpoint initializeLoop (a : App) (n : nat) (sch : list nat)
    (pending : list (string * Module)) : M (option error) :=
  match n with
  | O => ret None
  | S k =>
      match pick (hd O sch) pending with
      | None => ret None
      | Some ((name, m), rest) =>
          match mod_Initialize m with
          | None => initializeLoop a k (tl sch) rest
          | Some initialize =>
              r <- (fun p => let '(w, r) := initialize a (world p) in
                             (r, set_world w p)) ;;
              match r with
              | Some err =>
                  slog_Error "Failed to initialize module"
                    [("name", VStr name); ("err", VStr err)] ;;
                  ret (Some err)
              | None => initializeLoop a k (tl sch) rest
              end
          end
      end
  end.

(** [initializeModules] initializes all registered modules. *)
Definition initializeModules (a : App) (sch : list nat) : M (option error) :=
  snapshot <- GetModules ;;
  mods <- readMap snapshot ;;
  initializeLoop a (List.length (map_to_list mods)) sch (map_to_list mods).

(** [App.Start] begins all application services.  [srv] is
    [a.server]; the goroutine of [a.server.Start()] is started and
    recorded, its run is not part of the call. *)
Definition App_Start (a : App) (srv : Server) (sch : list nat)
    : Boot (option error) :=
  (* Initialize and start all modules *)
  r <~ lift (initializeModules a sch) ;;
  match r with
  | Some err => bret (Some err)
  | None =>
      (* Start HTTP server (non-blocking) *)
      (fun s => (Done tt, set_serving (serving s ++ [server_Addr srv]) s)) >>;
      lift (slog_Info "otto started" [("addr", VStr (Addr a))]) >>;
      bret None
  end.

End StartupProgram.

(** The package variables before any call: [GlobalConfig] is the zero
    [AppConfig]. *)
Definition zero_config : AppConfig :=
  {| WebHookSecret := ""; Port := ""; DBPath := ""; GitHubToken := "";
     Log := None; Modules := None |}.

Definition init_sys {collab : Collaborators} (p : Proc) : Sys :=
  {| proc := p; GlobalConfig := zero_config; db := None; dbOnce := false;
     metricsOnce := false; opened := []; serving := [] |}.

(** A platform on which everything succeeds and no module has an
    initializer, and one whose database does not answer. *)
Definition test_platform : @Platform test_collab :=
  {| sql_Open := fun _ => None;
     db_Ping := fun _ => None;
     resource_Merge := None;
     otlptracehttp_New := None;
     otlpmetrichttp_New := None;
     otlploghttp_New := None;
     meter_instrument := fun _ => None;
     mod_Initialize := fun _ => None |}.

Definition failing_ping_platform : @Platform test_collab :=
  {| sql_Open := fun _ => None;
     db_Ping := fun _ => Some "unable to open database file";
     resource_Merge := None;
     otlptracehttp_New := None;
     otlpmetrichttp_New := None;
     otlploghttp_New := None;
     meter_instrument := fun _ => None;
     mod_Initialize := fun _ => None |}.

(** The [Initialize] of the modules of [pending] that have one. *)
Definition initializers {collab : Collaborators} {platform : Platform}
    (a : App) (pending : list (string * Module))
    : list (string * (World -> World * option error)) :=
  omap (fun '(name, m) =>
          match mod_Initialize m with
          | Some f => Some (name, f a)
          | None => None
          end)
       pending.

(** Initializers run one after the other, up to the first that fails:
    the world they leave, and the failure. *)
Fixpoint run_inits {collab : Collaborators}
    (order : list (string * (World -> World * option error))) (w : World)
    : World * option (string * error) :=
  match order with
  | [] => (w, None)
  | (name, f) :: rest =>
      let '(w', r) := f w in
      match r with
      | Some err => (w', Some (name, err))
      | None => run_inits rest w'
      end
  end.

Definition init_error_record (ne : string * error) : LogRecord :=
  {| log_level := LevelError;
     log_msg := "Failed to initialize module";
     log_attrs := [("name", VStr (fst ne)); ("err", VStr (snd ne))] |}.

(** A platform on which the module named ["failing"] has an
    [Initialize] that returns an error. *)
Definition failing_init_platform : @Platform test_collab :=
  {| sql_Open := fun _ => None;
     db_Ping := fun _ => None;
     resource_Merge := None;
     otlptracehttp_New := None;
     otlpmetrichttp_New := None;
     otlploghttp_New := None;
     meter_instrument := fun _ => None;
     mod_Initialize := fun m =>
       if String.eqb (@Name test_collab m) "failing"
       then Some (fun _ w => (w, Some "init failed"))
       else None |}.


(* ===================================================================== *)
(** * Part II: properties                                                 *)
(* ===================================================================== *)

(** ** Strings *)

Lemma HasPrefix_iff (s prefix : string) :
  Strings.HasPrefix s prefix = true <-> exists rest, s = prefix ++ rest.
Proof.
  revert s. induction prefix as [|p prefix IH]; intros s; simpl.
  - split; [intros _; exists s; reflexivity | intros _; now destruct s].
  - destruct s as [|c s].
    + split; [discriminate | intros [rest H]; discriminate].
    + destruct (Ascii.eqb p c) eqn:E.
      * apply Ascii.eqb_eq in E. subst c. rewrite IH.
        split; intros [rest H]; exists rest; [now rewrite H | now inversion H].
      * apply Ascii.eqb_neq in E.
        split; [discriminate | intros [rest H]; inversion H; congruence].
Qed.

Lemma SplitSeq_nonempty (s : string) (sep : ascii) :
  Strings.SplitSeq s sep <> [].
Proof.
  destruct s as [|c s]; simpl; [discriminate|].
  destruct (Ascii.eqb c sep); [discriminate|].
  destruct (Strings.SplitSeq s sep); discriminate.
Qed.




(** ** commands.go *)



(** ** config.go *)

Lemma ValidateConfig_iff (config : AppConfig) :
  (exists err, ValidateConfig config = Some err) <-> WebHookSecret config = "".
Proof.
  unfold ValidateConfig.
  destruct (String.eqb (WebHookSecret config) "") eqn:E.
  - apply String.eqb_eq in E. split; [intros _; exact E | eauto].
  - apply String.eqb_neq in E. split; [intros [err H]; discriminate | contradiction].
Qed.

Lemma ApplyConfigDefaults_Port (config : AppConfig) :
  (Port config = "" -> Port (ApplyConfigDefaults config) = "8080")
  /\ (Port config <> "" -> Port (ApplyConfigDefaults config) = Port config).
Proof.
  unfold ApplyConfigDefaults; simpl.
  destruct (String.eqb (Port config) "") eqn:E.
  - apply String.eqb_eq in E. split; [reflexivity | contradiction].
  - apply String.eqb_neq in E. split; [contradiction | reflexivity].
Qed.

Lemma ApplyConfigDefaults_DBPath (config : AppConfig) :
  (DBPath config = "" -> DBPath (ApplyConfigDefaults config) = "data.db")
  /\ (DBPath config <> "" -> DBPath (ApplyConfigDefaults config) = DBPath config).
Proof.
  unfold ApplyConfigDefaults; simpl.
  destruct (String.eqb (DBPath config) "") eqn:E.
  - apply String.eqb_eq in E. split; [reflexivity | contradiction].
  - apply String.eqb_neq in E. split; [contradiction | reflexivity].
Qed.

Lemma ApplyConfigDefaults_Log (config : AppConfig) :
  (Log config = None ->
   exists l, Log (ApplyConfigDefaults config) = Some l /\ default_log l)
  /\ (forall l, Log config = Some l -> Log (ApplyConfigDefaults config) = Some l).
Proof.
  unfold ApplyConfigDefaults; simpl. split.
  - intros ->. eexists. split; [reflexivity|].
    repeat split; vm_compute; reflexivity.
  - intros l ->. reflexivity.
Qed.

Section ConfigLoading.

Context {collab : Collaborators}.

(** C9.  For a configuration file that opens and decodes, loading
    fails exactly when the webhook shared secret is empty (and so does
    [ValidateConfig]); a loaded configuration has an empty port
    replaced by "8080", an empty storage path by "data.db", an absent
    log block by level "info" and format "json", and every field that
    was set, as well as the secret, the token and the module block,
    unchanged. *)
Theorem LoadConfigFromFile_validates_then_defaults
    (path : string) (f : list byte) (config : AppConfig) (p : Proc) :
  os_Open path = inl f ->
  yaml_Decode f = inl config ->
  let r := eval (LoadConfigFromFile path) p in
  ((exists err, ValidateConfig config = Some err) <-> WebHookSecret config = "")
  /\ ((exists err, r = inr err) <-> WebHookSecret config = "")
  /\ (forall loaded, r = inl loaded ->
        loaded = ApplyConfigDefaults config
        /\ (Port config = "" -> Port loaded = "8080")
        /\ (DBPath config = "" -> DBPath loaded = "data.db")
        /\ (Log config = None ->
            exists l, Log loaded = Some l /\ default_log l)
        /\ (Port config <> "" -> Port loaded = Port config)
        /\ (DBPath config <> "" -> DBPath loaded = DBPath config)
        /\ (forall l, Log config = Some l -> Log loaded = Some l)
        /\ WebHookSecret loaded = WebHookSecret config
        /\ GitHubToken loaded = GitHubToken config
        /\ Modules loaded = Modules config).
Proof.
  intros Hopen Hdec r. subst r.
  unfold LoadConfigFromFile, eval. rewrite Hopen, Hdec.
  pose proof (ValidateConfig_iff config) as Hval.
  split; [exact Hval|].
  destruct (ValidateConfig config) as [err|] eqn:Ev; simpl.
  - split.
    + split; [intros _; apply Hval; eauto | eauto].
    + intros loaded H. discriminate.
  - split.
    + split; [intros [err H]; discriminate|].
      intros Hs. apply Hval in Hs. destruct Hs as [err H]. discriminate.
    + intros loaded H. injection H as <-.
      split; [reflexivity|].
      pose proof (ApplyConfigDefaults_Port config) as [].
      pose proof (ApplyConfigDefaults_DBPath config) as [].
      pose proof (ApplyConfigDefaults_Log config) as [].
      repeat split; auto.
Qed.

End ConfigLoading.

(** ** Bytes *)

Lemma byteval_range (c : byte) : 0 <= byteval c < 256.
Proof.
  unfold byteval. pose proof (N_ascii_bounded c). lia.
Qed.

Lemma byteval_inj (c d : byte) : byteval c = byteval d -> c = d.
Proof.
  unfold byteval. intros H. apply N2Z.inj in H.
  rewrite <- (ascii_N_embedding c), <- (ascii_N_embedding d). now rewrite H.
Qed.

Lemma byte_of_byteval (c : byte) : byte_of (byteval c) = c.
Proof.
  unfold byte_of, byteval. rewrite N2Z.id. apply ascii_N_embedding.
Qed.

Lemma byteval_byte_of (v : Z) : 0 <= v < 256 -> byteval (byte_of v) = v.
Proof.
  intros H. unfold byte_of, byteval.
  rewrite N_ascii_embedding by lia. lia.
Qed.

(** ** encoding/hex *)

(** The digit table of the decoder is the list of hexadecimal digits. *)
Lemma reverseHexTable_digit (c : byte) (v : Z) :
  In (c, v) hex_digits <-> (Hex.reverseHexTable c = v /\ v <= 0x0f).
Proof.
  split.
  - intros H. unfold hex_digits in H. simpl in H.
    repeat (destruct H as [H|H]; [injection H as <- <-; vm_compute; split; [reflexivity | discriminate] |]).
    contradiction.
  - intros [<- Hle].
    destruct c as [[] [] [] [] [] [] [] []]; vm_compute in Hle;
      try (exfalso; apply Hle; reflexivity);
      vm_compute; tauto.
Qed.

Lemma hex_digits_range (c : byte) (v : Z) :
  In (c, v) hex_digits -> 0 <= v <= 15.
Proof.
  intros H. unfold hex_digits in H. simpl in H.
  repeat (destruct H as [H|H]; [injection H as <- <-; lia |]).
  contradiction.
Qed.

Lemma nibbles_lor (a b : Z) :
  0 <= a <= 15 -> 0 <= b <= 15 -> Z.lor (Z.shiftl a 4) b = 16 * a + b.
Proof.
  intros Ha Hb.
  assert (Ea : a = 0 \/ a = 1 \/ a = 2 \/ a = 3 \/ a = 4 \/ a = 5 \/ a = 6
               \/ a = 7 \/ a = 8 \/ a = 9 \/ a = 10 \/ a = 11 \/ a = 12
               \/ a = 13 \/ a = 14 \/ a = 15) by lia.
  assert (Eb : b = 0 \/ b = 1 \/ b = 2 \/ b = 3 \/ b = 4 \/ b = 5 \/ b = 6
               \/ b = 7 \/ b = 8 \/ b = 9 \/ b = 10 \/ b = 11 \/ b = 12
               \/ b = 13 \/ b = 14 \/ b = 15) by lia.
  clear Ha Hb.
  repeat (destruct Ea as [->|Ea]);
    try subst a; repeat (destruct Eb as [->|Eb]); try subst b; reflexivity.
Qed.

Lemma list_pair_ind {A} (P : list A -> Prop) :
  P [] -> (forall x, P [x]) -> (forall x y l, P l -> P (x :: y :: l)) ->
  forall l, P l.
Proof.
  intros Hnil Hone Hstep.
  assert (H : forall l, P l /\ forall x, P (x :: l)).
  { induction l as [|y l [IH1 IH2]]; split; auto. }
  intros l. apply H.
Qed.

(** The decoder accepts exactly the hexadecimal writings of byte
    strings, and returns the bytes written. *)
Lemma Decode_hex_encoding (src bs : list byte) :
  Hex.Decode src = inl bs <-> hex_encoding (string_of src) bs.
Proof.
  revert bs. induction src as [|p|p q rest IH] using list_pair_ind; intros bs.
  - simpl. split.
    + intros H. injection H as <-. constructor.
    + intros H. inversion H. reflexivity.
  - simpl. split.
    + destruct (0x0f <? Hex.reverseHexTable p); discriminate.
    + intros H. inversion H.
  - cbn [Hex.Decode string_of string_of_list_ascii].
    destruct (0x0f <? Hex.reverseHexTable p) eqn:Ep.
    { split; [discriminate|]. intros H. inversion H; subst.
      match goal with H : In (p, _) _ |- _ =>
        apply reverseHexTable_digit in H as [E Hle] end.
      apply Z.ltb_lt in Ep. lia. }
    destruct (0x0f <? Hex.reverseHexTable q) eqn:Eq.
    { split; [discriminate|]. intros H. inversion H; subst.
      match goal with H : In (q, _) _ |- _ =>
        apply reverseHexTable_digit in H as [E Hle] end.
      apply Z.ltb_lt in Eq. lia. }
    apply Z.ltb_ge in Ep, Eq.
    assert (Hp : In (p, Hex.reverseHexTable p) hex_digits)
      by (apply reverseHexTable_digit; split; [reflexivity | lia]).
    assert (Hq : In (q, Hex.reverseHexTable q) hex_digits)
      by (apply reverseHexTable_digit; split; [reflexivity | lia]).
    pose proof (hex_digits_range _ _ Hp) as Rp.
    pose proof (hex_digits_range _ _ Hq) as Rq.
    rewrite nibbles_lor by assumption.
    split.
    + destruct (Hex.Decode rest) as [dst|e] eqn:Ed; [|discriminate].
      intros H. injection H as <-.
      constructor; [assumption | assumption |]. now apply IH.
    + intros H. inversion H as [|c1 c2 hi lo h bs' H1 H2 H3]; subst.
      apply reverseHexTable_digit in H1 as [<- _].
      apply reverseHexTable_digit in H2 as [<- _].
      apply IH in H3. rewrite H3. reflexivity.
Qed.

Lemma string_of_bytes_of (s : string) : string_of (bytes_of s) = s.
Proof. apply string_of_list_ascii_of_string. Qed.

Lemma DecodeString_hex_encoding (h : string) (bs : list byte) :
  Hex.DecodeString h = inl bs <-> hex_encoding h bs.
Proof.
  unfold Hex.DecodeString. rewrite Decode_hex_encoding.
  now rewrite string_of_bytes_of.
Qed.

Lemma hexdigit_digits (b : byte) :
  In (Hex.hexdigit (Z.shiftr (byteval b) 4), byteval b / 16) hex_digits
  /\ In (Hex.hexdigit (Z.land (byteval b) 0x0f), byteval b mod 16) hex_digits.
Proof.
  destruct b as [[] [] [] [] [] [] [] []];
    split; apply reverseHexTable_digit; vm_compute; split;
    solve [reflexivity | discriminate].
Qed.

(** The encoder writes a hexadecimal encoding (the lower-case one). *)
Lemma EncodeToString_hex_encoding (bs : list byte) :
  hex_encoding (Hex.EncodeToString bs) bs.
Proof.
  induction bs as [|b bs IH]; simpl; [constructor|].
  destruct (hexdigit_digits b) as [Hhi Hlo].
  replace (b :: bs)
    with (byte_of (16 * (byteval b / 16) + byteval b mod 16) :: bs).
  - now constructor.
  - f_equal. rewrite <- Z.div_mod by lia. apply byte_of_byteval.
Qed.

(** ** crypto/subtle *)

Lemma lor_byte_range (a b : Z) :
  0 <= a < 256 -> 0 <= b < 256 -> 0 <= Z.lor a b < 256.
Proof.
  intros Ha Hb.
  assert (H0 : 0 <= Z.lor a b) by (apply Z.lor_nonneg; lia).
  split; [exact H0|].
  destruct (Z.eq_dec (Z.lor a b) 0) as [E|E]; [lia|].
  apply (Z.log2_lt_pow2 _ 8); [lia|].
  rewrite Z.log2_lor by lia.
  apply Z.max_lub_lt.
  - destruct (Z.eq_dec a 0) as [->|]; [simpl; lia | apply Z.log2_lt_pow2; lia].
  - destruct (Z.eq_dec b 0) as [->|]; [simpl; lia | apply Z.log2_lt_pow2; lia].
Qed.

Lemma lxor_byte_range (a b : Z) :
  0 <= a < 256 -> 0 <= b < 256 -> 0 <= Z.lxor a b < 256.
Proof.
  intros Ha Hb.
  assert (H0 : 0 <= Z.lxor a b) by (apply Z.lxor_nonneg; lia).
  split; [exact H0|].
  destruct (Z.eq_dec (Z.lxor a b) 0) as [E|E]; [lia|].
  apply (Z.log2_lt_pow2 _ 8); [lia|].
  eapply Z.le_lt_trans; [apply Z.log2_lxor; lia|].
  apply Z.max_lub_lt.
  - destruct (Z.eq_dec a 0) as [->|]; [simpl; lia | apply Z.log2_lt_pow2; lia].
  - destruct (Z.eq_dec b 0) as [->|]; [simpl; lia | apply Z.log2_lt_pow2; lia].
Qed.

Lemma accumulate_range (x y : list byte) (v : Z) :
  0 <= v < 256 -> 0 <= Subtle.accumulate v x y < 256.
Proof.
  revert y v. induction x as [|xi x IH]; intros [|yi y] v Hv; simpl; try exact Hv.
  apply IH. apply lor_byte_range; [exact Hv|].
  apply lxor_byte_range; apply byteval_range.
Qed.

Lemma accumulate_zero (x y : list byte) (v : Z) :
  List.length x = List.length y ->
  Subtle.accumulate v x y = 0 <-> v = 0 /\ x = y.
Proof.
  revert y v. induction x as [|xi x IH]; intros [|yi y] v Hlen;
    simpl in *; try discriminate.
  - tauto.
  - injection Hlen as Hlen. rewrite (IH y _ Hlen).
    rewrite Z.lor_eq_0_iff, Z.lxor_eq_0_iff.
    split.
    + intros [[Hv Hb] Hxy]. apply byteval_inj in Hb. subst. auto.
    + intros [Hv Hxy]. injection Hxy as -> ->. auto.
Qed.

Lemma ConstantTimeByteEq_zero (v : Z) :
  0 <= v < 256 -> Subtle.ConstantTimeByteEq v 0 = 1 <-> v = 0.
Proof.
  intros Hv. unfold Subtle.ConstantTimeByteEq. rewrite Z.lxor_0_r.
  split.
  - intros H. destruct (Z.eq_dec v 0) as [|Hne]; [assumption|].
    rewrite Z.mod_small in H by lia.
    rewrite Z.shiftr_div_pow2 in H by lia.
    rewrite Z.div_small in H by lia. discriminate.
  - intros ->. reflexivity.
Qed.

(** The constant-time comparison answers 1 exactly on equal slices. *)
Lemma ConstantTimeCompare_eq (x y : list byte) :
  Subtle.ConstantTimeCompare x y = 1 <-> x = y.
Proof.
  unfold Subtle.ConstantTimeCompare, len.
  destruct (Z.of_nat (List.length x) =? Z.of_nat (List.length y)) eqn:E; simpl.
  - apply Z.eqb_eq in E. apply Nat2Z.inj in E.
    rewrite ConstantTimeByteEq_zero by (apply accumulate_range; lia).
    rewrite accumulate_zero by exact E. tauto.
  - apply Z.eqb_neq in E. split; [discriminate|].
    intros ->. contradiction.
Qed.

(** ** strings.TrimPrefix *)

Lemma substring_whole (s : string) :
  String.substring 0 (String.length s) s = s.
Proof.
  induction s as [|c s IH]; simpl; [reflexivity | now rewrite IH].
Qed.

Lemma substring_drop_prefix (prefix rest : string) :
  String.substring (String.length prefix)
    (String.length (prefix ++ rest) - String.length prefix) (prefix ++ rest)
  = rest.
Proof.
  induction prefix as [|c prefix IH]; simpl.
  - rewrite Nat.sub_0_r. apply substring_whole.
  - exact IH.
Qed.

Lemma TrimPrefix_app (prefix rest : string) :
  Strings.TrimPrefix (prefix ++ rest) prefix = rest.
Proof.
  unfold Strings.TrimPrefix.
  assert (H : Strings.HasPrefix (prefix ++ rest) prefix = true)
    by (apply HasPrefix_iff; eauto).
  rewrite H. apply substring_drop_prefix.
Qed.

(** ** server.go: signature verification *)

Section Signature.

Context {collab : Collaborators}.

(** The verdict is true exactly on ["sha256="] followed by a
    hexadecimal writing of the HMAC of the payload under the server's
    secret. *)
Lemma verifySignature_iff (s : Server) (payload : list byte) (sig : string) :
  verifySignature s payload sig = true
  <-> exists h, sig = "sha256=" ++ h
                /\ hex_encoding h (hmac_sha256 (webhookSecret s) payload).
Proof.
  unfold verifySignature.
  destruct (Strings.HasPrefix sig "sha256=") eqn:Hp; cbn [negb].
  - apply HasPrefix_iff in Hp as [h ->].
    rewrite TrimPrefix_app.
    destruct (Hex.DecodeString h) as [received|e] eqn:Hd.
    + apply DecodeString_hex_encoding in Hd.
      rewrite Z.eqb_eq, ConstantTimeCompare_eq.
      split.
      * intros <-. exists h. auto.
      * intros [h' [E H']]. apply String.app_inj in E. subst h'.
        apply DecodeString_hex_encoding in Hd, H'. congruence.
    + split; [discriminate|].
      intros [h' [E H']]. apply String.app_inj in E. subst h'.
      apply DecodeString_hex_encoding in H'. congruence.
  - split; [discriminate|].
    intros [h [-> _]].
    assert (Strings.HasPrefix ("sha256=" ++ h) "sha256=" = true)
      by (apply HasPrefix_iff; eauto).
    congruence.
Qed.



End Signature.

Section SignatureClaim.

Context {collab : Collaborators}.


End SignatureClaim.


(** ** config.go: a run *)

Lemma LoadConfigFromFile_validates_then_defaults_witness :
  exists loaded,
    eval (@LoadConfigFromFile test_collab "otto.yaml") (@init_proc test_collab ∅)
    = inl loaded
    /\ Port loaded = "8080" /\ DBPath loaded = "data.db"
    /\ WebHookSecret loaded = "It's a Secret to Everybody".
Proof.
  pose proof (@LoadConfigFromFile_validates_then_defaults test_collab
                "otto.yaml"
                (bytes_of "web_hook_secret: It's a Secret to Everybody")
                sample_config (@init_proc test_collab ∅)
                eq_refl eq_refl) as (_ & _ & Hok).
  exists (ApplyConfigDefaults sample_config).
  assert (E : eval (@LoadConfigFromFile test_collab "otto.yaml")
                (@init_proc test_collab ∅)
              = inl (ApplyConfigDefaults sample_config)) by reflexivity.
  destruct (Hok _ E) as (_ & HP & HD & _ & _ & _ & _ & HS & _).
  split; [exact E|].
  split; [apply HP; reflexivity|].
  split; [apply HD; reflexivity|].
  exact HS.
Defined.

(** ** modules.go: the registry *)

Section Registry.

Context {collab : Collaborators}.

Local Open Scope list_scope.

Lemma set_heap_same (p : Proc) : set_heap (heap p) p = p.
Proof. now destruct p. Qed.

Lemma set_heap_twice (h h' : gmap positive (gmap string Module)) (p : Proc) :
  set_heap h (set_heap h' p) = set_heap h p.
Proof. reflexivity. Qed.

Lemma insert_all_lookup (kvs : list (string * Module))
    (acc : gmap string Module) (k : string) :
  NoDup (kvs.*1) ->
  insert_all kvs acc !! k
  = match (list_to_map kvs : gmap string Module) !! k with
    | Some v => Some v
    | None => acc !! k
    end.
Proof.
  revert acc. induction kvs as [|[k0 v0] kvs IH]; intros acc Hnd.
  - simpl. now rewrite lookup_empty.
  - apply NoDup_cons in Hnd as [Hnotin Hnd].
    unfold insert_all in *. cbn [foldl fst snd]. rewrite IH by exact Hnd.
    cbn [list_to_map foldr uncurry fst snd].
    destruct (decide (k0 = k)) as [->|Hne].
    + rewrite lookup_insert_eq.
      rewrite (not_elem_of_list_to_map_1 (M := gmap string) kvs k Hnotin).
      now rewrite lookup_insert_eq.
    + rewrite !lookup_insert_ne by exact Hne. reflexivity.
Qed.

Lemma insert_all_map_to_list (mods : gmap string Module) :
  insert_all (map_to_list mods) ∅ = mods.
Proof.
  apply map_eq. intros k.
  rewrite insert_all_lookup by apply NoDup_fst_map_to_list.
  rewrite list_to_map_to_list, lookup_empty.
  now destruct (mods !! k).
Qed.

(** The copying loop of [GetModules] stores every binding at [l]. *)
Lemma forEach_mapStore (l : positive) (kvs : list (string * Module))
    (p : Proc) :
  exec (forEach kvs (fun '(name, m) => mapStore l name m)) p
  = set_heap (alter (insert_all kvs) l (heap p)) p.
Proof.
  revert p. induction kvs as [|[k v] kvs IH]; intros p.
  - cbn. rewrite alter_id by reflexivity. now rewrite set_heap_same.
  - cbn [forEach]. unfold bind, exec in *. cbn.
    rewrite IH. cbn. rewrite alter_alter_eq. reflexivity.
Qed.

(** [GetModules] allocates one map, holding the bindings of the
    registry, and changes nothing else. *)
Lemma GetModules_eq (p : Proc) :
  GetModules p
  = (fresh (dom (heap p)),
     set_heap (<[fresh (dom (heap p)) := heap p !!! modules]> (heap p)) p).
Proof.
  unfold GetModules, bind, readMap, makeMap, ret.
  pose proof (forEach_mapStore (fresh (dom (heap p)))
                (map_to_list (heap p !!! modules))
                (set_heap (<[fresh (dom (heap p)) := ∅]> (heap p)) p)) as H.
  unfold exec in H.
  destruct (forEach _ _ _) as [u p'] eqn:E. cbn in H. subst p'.
  cbn. rewrite alter_insert_eq, insert_all_map_to_list. reflexivity.
Qed.

Lemma fresh_not_allocated (p : Proc) (l : positive) :
  is_Some (heap p !! l) -> fresh (dom (heap p)) <> l.
Proof.
  intros Hl E. apply elem_of_dom in Hl. rewrite <- E in Hl.
  exact (is_fresh _ Hl).
Qed.

End Registry.

Section RegistryClaims.

Context {collab : Collaborators}.

Local Open Scope list_scope.

Lemma RegisterModule_taken (m m0 : Module) (p : Proc) :
  (heap p !!! modules) !! Name m = Some m0 ->
  exec (RegisterModule m) p
  = set_slog (slog p ++ [{| log_level := LevelError;
                            log_msg := "module registered twice";
                            log_attrs := [("name", VStr (Name m))] |}]) p.
Proof.
  intros H. unfold RegisterModule, exec, bind, readMap. cbn. now rewrite H.
Qed.

Lemma RegisterModule_free (m : Module) (p : Proc) :
  (heap p !!! modules) !! Name m = None ->
  exec (RegisterModule m) p
  = set_slog (slog p ++ [{| log_level := LevelInfo;
                            log_msg := "module registered";
                            log_attrs := [("name", VStr (Name m))] |}])
      (set_heap (alter (insert (Name m) m) modules (heap p)) p).
Proof.
  intros H. unfold RegisterModule, exec, bind, readMap. cbn. now rewrite H.
Qed.

(** C5.  In an initialised process, registering [m1] and then a
    module [m2] of the same name: the second call changes neither the
    registry nor any other map, does not panic, and writes the error
    record; the name is bound to [m1] when it was free before the
    first call, and to the module already registered otherwise. *)
Theorem RegisterModule_second_rejected (m1 m2 : Module) (p : Proc) :
  Name m1 = Name m2 ->
  is_Some (heap p !! modules) ->
  let p1 := exec (RegisterModule m1) p in
  let p2 := exec (RegisterModule m2) p1 in
  heap p2 = heap p1
  /\ crashed p2 = crashed p
  /\ slog p2 = slog p1 ++ [{| log_level := LevelError;
                              log_msg := "module registered twice";
                              log_attrs := [("name", VStr (Name m2))] |}]
  /\ ((heap p !!! modules) !! Name m1 = None ->
      (heap p2 !!! modules) !! Name m1 = Some m1)
  /\ (forall m0, (heap p !!! modules) !! Name m1 = Some m0 ->
      (heap p2 !!! modules) !! Name m1 = Some m0).
Proof.
  intros Hname [mods Hmods] p1 p2.
  assert (Htot : heap p !!! modules = mods)
    by (rewrite lookup_total_alt, Hmods; reflexivity).
  assert (Hbound : exists m, (heap p1 !!! modules) !! Name m2 = Some m
              /\ ((heap p !!! modules) !! Name m1 = None -> m = m1)
              /\ (forall m0, (heap p !!! modules) !! Name m1 = Some m0 -> m = m0)).
  { subst p1. destruct ((heap p !!! modules) !! Name m1) as [m0|] eqn:E.
    - rewrite (RegisterModule_taken _ _ _ E). cbn [heap set_slog set_heap].
      rewrite <- Hname, E.
      exists m0. split; [reflexivity|]. split; [discriminate | congruence].
    - rewrite (RegisterModule_free _ _ E). cbn [heap set_slog set_heap].
      rewrite lookup_total_alter_eq, Hmods. simpl.
      rewrite <- Hname, lookup_insert_eq.
      exists m1. split; [reflexivity|]. split; [reflexivity | discriminate]. }
  destruct Hbound as (m & Hm & Hfree & Htaken).
  subst p2. rewrite (RegisterModule_taken _ _ _ Hm). cbn.
  split; [reflexivity|].
  split.
  { subst p1. unfold RegisterModule, exec, bind, readMap. cbn.
    destruct (_ !! Name m1); reflexivity. }
  split; [reflexivity|].
  rewrite Hname. split.
  - intros E. rewrite Hm. f_equal. apply Hfree. now rewrite Hname.
  - intros m0 E. rewrite Hm. f_equal. apply Htaken. now rewrite Hname.
Qed.

Lemma apply_op_frame (l l' : positive) (op : MapOp) (p : Proc) :
  l <> l' -> heap (exec (apply_op l op) p) !! l' = heap p !! l'.
Proof.
  intros Hne. destruct op; cbn; now rewrite lookup_alter_ne.
Qed.

Lemma apply_ops_frame (l l' : positive) (ops : list MapOp) (p : Proc) :
  l <> l' -> heap (exec (forEach ops (apply_op l)) p) !! l' = heap p !! l'.
Proof.
  intros Hne. revert p. induction ops as [|op ops IH]; intros p; [reflexivity|].
  cbn [forEach]. unfold exec, bind in *.
  destruct (apply_op l op p) as [u p1] eqn:E. cbn.
  rewrite IH. pose proof (apply_op_frame l l' op p Hne) as H.
  unfold exec in H. now rewrite E in H.
Qed.

(** C8.  In an initialised process, [GetModules] returns a newly
    allocated map with the bindings of the registry and changes no
    other part of the process, the registry included; stores and
    deletions through the returned map never reach the registry, and
    a later registration does not reach the returned map. *)
Theorem GetModules_independent_copy (p : Proc) :
  is_Some (heap p !! modules) ->
  let l := eval GetModules p in
  let p' := exec GetModules p in
  l <> modules
  /\ heap p !! l = None
  /\ heap p' !! l = Some (heap p !!! modules)
  /\ heap p' !! modules = heap p !! modules
  /\ p' = set_heap (<[l := heap p !!! modules]> (heap p)) p
  /\ (forall ops : list MapOp,
        heap (exec (forEach ops (apply_op l)) p') !! modules
        = heap p !! modules)
  /\ (forall m : Module,
        heap (exec (RegisterModule m) p') !! l = heap p' !! l).
Proof.
  intros Hinit l p'.
  assert (El : l = fresh (dom (heap p)))
    by (subst l; unfold eval; now rewrite GetModules_eq).
  assert (Ep : p' = set_heap (<[fresh (dom (heap p)) := heap p !!! modules]>
                                (heap p)) p)
    by (subst p'; unfold exec; now rewrite GetModules_eq).
  clearbody l p'. subst l p'.
  pose proof (fresh_not_allocated p modules Hinit) as Hne.
  assert (Hfresh : heap p !! fresh (dom (heap p)) = None)
    by (apply not_elem_of_dom, is_fresh).
  split; [exact Hne|]. split; [exact Hfresh|].
  split; [cbn; apply lookup_insert_eq|].
  split; [cbn; now apply lookup_insert_ne|].
  split; [reflexivity|].
  split.
  - intros ops. rewrite apply_ops_frame by exact Hne.
    cbn. now apply lookup_insert_ne.
  - intros m. unfold RegisterModule, exec, bind, readMap.
    cbn [fst snd heap set_heap].
    destruct (_ !! Name m); cbn [fst snd heap set_heap set_slog slog_Error
      slog_Info slog_write mapStore]; [reflexivity|].
    apply lookup_alter_ne. congruence.
Qed.

End RegistryClaims.

(** Runs on the mocks of the test file. *)

Lemma RegisterModule_second_rejected_witness :
  let p := @init_proc test_collab ∅ in
  let p2 := exec (RegisterModule (errModule "testmod"))
              (exec (RegisterModule (mockModule "testmod")) p) in
  (heap p2 !!! modules) !! "testmod" = Some (mockModule "testmod").
Proof.
  intros p p2.
  pose proof (@RegisterModule_second_rejected test_collab
                (mockModule "testmod") (errModule "testmod") p eq_refl
                (ex_intro _ ∅ eq_refl)) as (_ & _ & _ & Hfree & _).
  apply Hfree. reflexivity.
Defined.

Lemma GetModules_independent_copy_witness :
  let p := exec (RegisterModule (mockModule "testmod")) (@init_proc test_collab ∅) in
  let l := eval GetModules p in
  heap (exec (forEach [OpDelete "testmod"; OpStore "other" (errModule "other")]
                      (apply_op l))
             (exec GetModules p)) !! modules
  = heap p !! modules.
Proof.
  intros p l.
  assert (Hinit : is_Some (heap p !! modules)) by (eexists; reflexivity).
  pose proof (@GetModules_independent_copy test_collab p Hinit)
    as (_ & _ & _ & _ & _ & Hops & _).
  apply Hops.
Defined.

(** ** app.go: dispatch *)

Section Dispatch.

Context {collab : Collaborators}.

Local Open Scope list_scope.

Lemma forEach_spawn (eventType : string) (event : Event) (raw : list byte)
    (kvs : list (string * Module)) (p : Proc) :
  exec (forEach kvs (fun '(name, m) =>
                       spawn (GoHandleEvent name m eventType event raw))) p
  = set_goroutines
      (goroutines p
         ++ map (fun nm => GoHandleEvent (fst nm) (snd nm) eventType event raw)
                kvs) p.
Proof.
  revert p. induction kvs as [|[k v] kvs IH]; intros p.
  - cbn. rewrite app_nil_r. now destruct p.
  - cbn [forEach]. unfold bind, exec in *. cbn.
    rewrite IH. cbn. now rewrite <- app_assoc.
Qed.

(** [DispatchEvent] takes a snapshot and starts one goroutine per
    module of the registry; it runs none of them. *)
Lemma DispatchEvent_eq (a : App) (eventType : string) (event : Event)
    (raw : list byte) (p : Proc) :
  exec (DispatchEvent a eventType event raw) p
  = set_goroutines
      (goroutines p
         ++ map (fun nm => GoHandleEvent (fst nm) (snd nm) eventType event raw)
                (map_to_list (heap p !!! modules)))
      (set_heap (<[fresh (dom (heap p)) := heap p !!! modules]> (heap p)) p).
Proof.
  unfold DispatchEvent, exec, bind. rewrite GetModules_eq.
  unfold readMap. cbn [heap set_heap].
  rewrite lookup_total_insert_eq.
  pose proof (forEach_spawn eventType event raw
                (map_to_list (heap p !!! modules))
                (set_heap (<[fresh (dom (heap p)) := heap p !!! modules]>
                             (heap p)) p)) as H.
  unfold exec in H. rewrite H. reflexivity.
Qed.

(** What running one goroutine does. *)
Lemma run_goroutine_eq (g : Goroutine) (p : Proc) :
  match g with
  | GoHandleEvent n m eventType event raw =>
      let '(w, out) := HandleEvent m eventType event raw (world p) in
      let p1 := set_calls (calls p ++ [call_of g]) (set_world w p) in
      exec (run_goroutine g) p
      = match out with
        | Returned None => p1
        | Returned (Some err) =>
            set_slog (slog p ++ [{| log_level := LevelError;
                                    log_msg := "Event handling error";
                                    log_attrs :=
                                      [("module", VStr n);
                                       ("event", VStr eventType);
                                       ("err", VStr err)] |}]) p1
        | Panicked _ => set_crashed true p1
        end
  end.
Proof.
  destruct g as [n m eventType event raw].
  unfold run_goroutine, exec, bind. cbn.
  destruct (HandleEvent m eventType event raw (world p)) as [w out].
  destruct out as [[err|]|v]; reflexivity.
Qed.

Lemma run_goroutine_calls (g : Goroutine) (p : Proc) :
  calls (exec (run_goroutine g) p) = calls p ++ [call_of g]
  /\ goroutines (exec (run_goroutine g) p) = goroutines p
  /\ heap (exec (run_goroutine g) p) = heap p.
Proof.
  destruct g as [n m eventType event raw].
  unfold run_goroutine, exec, bind. cbn.
  destruct (HandleEvent m eventType event raw (world p)) as [w out].
  destruct out as [[err|]|v]; cbn; auto.
Qed.

(** Every step moves one delivery from the started goroutines to the
    calls made: none is lost, none is made twice. *)
Lemma step_deliveries (p p' : Proc) :
  step p p' ->
  Permutation (calls p' ++ map call_of (goroutines p'))
              (calls p ++ map call_of (goroutines p)).
Proof.
  intros [q g before after Hlive Hgs].
  destruct (run_goroutine_calls g (set_goroutines (before ++ after) q))
    as (Hc & Hg & _).
  rewrite Hc, Hg, Hgs. cbn [calls goroutines set_goroutines].
  rewrite <- app_assoc, !map_app. cbn [map app].
  apply Permutation_app_head.
  exact (Permutation_middle (map call_of before) (map call_of after) (call_of g)).
Qed.

Lemma steps_deliveries (p p' : Proc) :
  steps p p' ->
  Permutation (calls p' ++ map call_of (goroutines p'))
              (calls p ++ map call_of (goroutines p)).
Proof.
  induction 1 as [|p q r Hstep _ IH]; [reflexivity|].
  rewrite IH. now apply step_deliveries.
Qed.

Lemma pick_Some {A} (i : nat) (l : list A) (x : A) (rest : list A) :
  pick i l = Some (x, rest) ->
  exists before after, l = before ++ x :: after /\ rest = before ++ after.
Proof.
  unfold pick. destruct (l !! _) as [y|] eqn:E; [|discriminate].
  intros H. injection H as <- <-.
  eexists _, _. split; [|reflexivity].
  symmetry. now apply take_drop_middle.
Qed.

Lemma pick_None {A} (i : nat) (l : list A) : pick i l = None -> l = [].
Proof.
  unfold pick. destruct l as [|x l]; [reflexivity|].
  destruct (_ !! _) eqn:E; [discriminate|].
  intros _. apply lookup_ge_None in E.
  pose proof (Nat.mod_upper_bound i (List.length (x :: l))) as H.
  cbn [List.length] in *. lia.
Qed.

(** The scheduler function makes scheduler steps. *)
Lemma run_steps (sch : list nat) (p : Proc) : steps p (run sch p).
Proof.
  revert p. induction sch as [|i sch IH]; intros p; cbn [run].
  - apply rtc_refl.
  - destruct (crashed p) eqn:Hc; [apply rtc_refl|].
    destruct (pick i (goroutines p)) as [[g rest]|] eqn:E; [|apply rtc_refl].
    apply pick_Some in E as (before & after & Hgs & ->).
    eapply rtc_l; [|apply IH]. now constructor.
Qed.





End Dispatch.

Section DispatchClaims.

Context {collab : Collaborators}.

Local Open Scope list_scope.

Lemma deliveries_spec (mods : gmap string Module) (eventType : string)
    (event : Event) (raw : list byte) :
  List.length (deliveries mods eventType event raw) = size mods
  /\ NoDup (map call_name (deliveries mods eventType event raw))
  /\ (forall c, In c (deliveries mods eventType event raw) ->
        mods !! call_name c = Some (call_module c)
        /\ call_eventType c = eventType
        /\ call_event c = event
        /\ call_raw c = raw)
  /\ (forall n m, mods !! n = Some m ->
        In {| call_name := n; call_module := m; call_eventType := eventType;
              call_event := event; call_raw := raw |}
           (deliveries mods eventType event raw)).
Proof.
  unfold deliveries. split; [|split; [|split]].
  - rewrite length_map. apply length_map_to_list.
  - rewrite map_map. cbn. apply (NoDup_fst_map_to_list mods).
  - intros c Hc. apply in_map_iff in Hc as [[n m] [<- Hin]]. cbn.
    apply list_elem_of_In, elem_of_map_to_list in Hin. auto.
  - intros n m H. apply in_map_iff. exists (n, m). split; [reflexivity|].
    now apply list_elem_of_In, elem_of_map_to_list.
Qed.




End DispatchClaims.




(** ** app.go: shutdown *)

Section Shutdown.

Context {collab : Collaborators}.

Local Open Scope list_scope.

Lemma exec_bind {A B} (m : M A) (k : A -> M B) (p : Proc) :
  exec (bind m k) p = exec (k (eval m p)) (exec m p).
Proof. unfold exec, eval, bind. now destruct (m p). Qed.

Lemma eval_bind {A B} (m : M A) (k : A -> M B) (p : Proc) :
  eval (bind m k) p = eval (k (eval m p)) (exec m p).
Proof. unfold exec, eval, bind. now destruct (m p). Qed.

Lemma failures_app (r1 r2 : list (string * option error)) :
  failures (r1 ++ r2) = failures r1 ++ failures r2.
Proof. unfold failures. apply omap_app. Qed.

Lemma failures_errors (results : list (string * option error)) :
  map snd (failures results) = omap snd results.
Proof.
  induction results as [|[n [e|]] results IH]; cbn; [reflexivity| |exact IH].
  now rewrite <- IH.
Qed.

(** The wait loop runs every pending shutdown once, and changes only
    the world, the trace and the log. *)
Lemma waitShutdowns_spec (n : nat) (sch : list nat)
    (pending : list (string * (World -> World * option error)))
    (errors : list error) (p : Proc) :
  n = List.length pending ->
  exists results,
    shutdown_results pending results
    /\ eval (waitShutdowns n sch pending errors) p
       = errors ++ omap snd results
    /\ let p' := exec (waitShutdowns n sch pending errors) p in
       trace p' = trace p ++ map EffModuleShutdown (map fst results)
       /\ slog p' = slog p ++ map shutdown_error_record (failures results)
       /\ heap p' = heap p /\ crashed p' = crashed p
       /\ providers p' = providers p /\ goroutines p' = goroutines p
       /\ calls p' = calls p.
Proof.
  revert sch pending errors p.
  induction n as [|n IH]; intros sch pending errors p Hn.
  - destruct pending; [|discriminate].
    exists []. split; [split; [reflexivity | intros ? ? []]|].
    cbn. rewrite !app_nil_r. auto 10.
  - cbn [waitShutdowns].
    destruct (pick (hd 0%nat sch) pending) as [[[name f] rest]|] eqn:E.
    2:{ apply pick_None in E. subst pending. discriminate. }
    apply pick_Some in E as (before & after & -> & ->).
    rewrite length_app in Hn. cbn in Hn.
    assert (Hrest : n = List.length (before ++ after))
      by (rewrite length_app; lia).
    unfold eval, exec, bind, emit. cbn [fst snd].
    destruct (f (world p)) as [w r] eqn:Ef. cbn [trace set_trace world].
    rewrite Ef.
    set (p1 := set_world w (set_trace (trace p ++ [EffModuleShutdown name]) p)).
    destruct r as [err|].
    + unfold slog_Error, slog_write. cbn [fst snd].
      set (p2 := set_slog _ p1).
      destruct (IH (tl sch) (before ++ after) (errors ++ [err]) p2 Hrest)
        as (results & [Hperm Hsound] & Herrs & Htr & Hlog & Hrestp).
      exists ((name, Some err) :: results).
      split; [split|].
      * cbn [map fst]. rewrite Hperm, !map_app. cbn [map fst].
        apply Permutation_middle.
      * intros name' r' [H|H].
        -- injection H as <- <-. exists f, (world p), w.
           split; [apply in_elt | exact Ef].
        -- destruct (Hsound _ _ H) as (f' & w1 & w2 & Hin & Hf).
           exists f', w1, w2. split; [|exact Hf].
           apply in_app_or in Hin as [Hin|Hin];
             apply in_or_app; [left | right; right]; exact Hin.
      * unfold eval, exec in *. split.
        -- rewrite Herrs. cbn [omap snd]. now rewrite <- app_assoc.
        -- cbn [fst snd map failures omap] in *.
           rewrite Htr, Hlog. subst p2 p1.
           cbn [trace slog set_slog set_world set_trace].
           rewrite <- !app_assoc. cbn [app].
           split; [reflexivity|]. split; [reflexivity|]. exact Hrestp.
    + destruct (IH (tl sch) (before ++ after) errors p1 Hrest)
        as (results & [Hperm Hsound] & Herrs & Htr & Hlog & Hrestp).
      exists ((name, None) :: results).
      split; [split|].
      * cbn [map fst]. rewrite Hperm, !map_app. cbn [map fst].
        apply Permutation_middle.
      * intros name' r' [H|H].
        -- injection H as <- <-. exists f, (world p), w.
           split; [apply in_elt | exact Ef].
        -- destruct (Hsound _ _ H) as (f' & w1 & w2 & Hin & Hf).
           exists f', w1, w2. split; [|exact Hf].
           apply in_app_or in Hin as [Hin|Hin];
             apply in_or_app; [left | right; right]; exact Hin.
      * unfold eval, exec in *. split.
        -- rewrite Herrs. reflexivity.
        -- cbn [fst snd map failures omap] in *.
           rewrite Htr, Hlog. subst p1.
           cbn [trace slog set_slog set_world set_trace].
           rewrite <- !app_assoc. cbn [app].
           split; [reflexivity|]. split; [reflexivity|]. exact Hrestp.
Qed.

End Shutdown.

Section ShutdownClaims.

Context {collab : Collaborators}.

Local Open Scope list_scope.

(** [shutdownModules] runs the [Shutdown] of every module that has
    one, waits for all of them, and returns the first error that was
    sent, or nil when none was. *)
Lemma shutdownModules_spec (a : App) (sch : list nat) (p : Proc) :
  exists results,
    shutdown_results (shutdowners (heap p !!! modules)) results
    /\ eval (shutdownModules a sch) p = head (omap snd results)
    /\ let p' := exec (shutdownModules a sch) p in
       trace p' = trace p ++ map EffModuleShutdown (map fst results)
       /\ slog p' = slog p ++ map shutdown_error_record (failures results)
       /\ crashed p' = crashed p
       /\ providers p' = providers p.
Proof.
  unfold shutdownModules, eval, exec, bind. rewrite GetModules_eq.
  unfold readMap. cbn [heap set_heap fst snd].
  rewrite lookup_total_insert_eq.
  set (p1 := set_heap _ p).
  destruct (waitShutdowns_spec
              (List.length (shutdowners (heap p !!! modules))) sch
              (shutdowners (heap p !!! modules)) [] p1 eq_refl)
    as (results & Hres & Herrs & Htr & Hlog & _ & Hc & Hp & _).
  exists results. unfold eval, exec in *.
  destruct (waitShutdowns _ _ _ _ p1) as [errors p2].
  cbn [fst snd] in *. subst errors.
  split; [exact Hres|]. split; [reflexivity|].
  cbn [fst snd ret]. rewrite Htr, Hlog, Hc, Hp. subst p1. cbn. auto.
Qed.



End ShutdownClaims.

Section AppShutdown.

Context {collab : Collaborators}.

Local Open Scope list_scope.




End AppShutdown.


(** ** server.go: the webhook handler *)

Section Webhook.

Context {collab : Collaborators}.

Local Open Scope list_scope.


Lemma no_goroutine_stuck (p p' : Proc) :
  goroutines p = [] -> steps p p' -> p' = p.
Proof.
  intros Hg Hs. destruct Hs as [|p q r Hstep _]; [reflexivity|].
  destruct Hstep as [p g before after _ Hgs].
  rewrite Hg in Hgs. now destruct before.
Qed.

(** C10.  A request whose body is read, whose signature is accepted
    and whose payload decodes is answered 200, with or without an
    application behind the server.  Without one, no goroutine is
    started, no handler is or will be called, and the only traces are
    the two log records: the event received, and the error that it was
    not dispatched. *)
Theorem handleWebhook_without_app (s : Server) (r : Request) (p : Proc)
    (payload : list byte) (event : Event) :
  Body r = inl payload ->
  verifySignature s payload (Header_Get r "X-Hub-Signature-256") = true ->
  ParseWebHook (WebHookType r) payload = inl event ->
  let w := eval (handleWebhook s newResponse r) p in
  let p' := exec (handleWebhook s newResponse r) p in
  status w = Some 200
  /\ (app s = None ->
      goroutines p' = goroutines p
      /\ calls p' = calls p
      /\ world p' = world p
      /\ heap p' = heap p
      /\ slog p'
         = slog p
             ++ [ {| log_level := LevelInfo; log_msg := "received event";
                     log_attrs := [("type", VStr (WebHookType r));
                                   ("struct", VStr (typeName event))] |};
                  {| log_level := LevelError;
                     log_msg := "No app reference in server, event dispatch failed";
                     log_attrs := [] |} ]
      /\ (goroutines p = [] -> forall p'', steps p' p'' -> calls p'' = calls p)).
Proof.
  intros Hbody Hsig Hparse w p'. subst w p'.
  unfold handleWebhook. rewrite Hbody, Hsig, Hparse. cbn [negb].
  split.
  - destruct (app s); rewrite !eval_bind; reflexivity.
  - intros ->. cbn.
    repeat (split; [reflexivity|]).
    split; [now rewrite <- app_assoc|].
    intros Hg p'' Hs. apply no_goroutine_stuck in Hs; [|exact Hg].
    now subst p''.
Qed.

End Webhook.


Lemma handleWebhook_without_app_witness :
  let s := NewServer "It's a Secret to Everybody" "8080" in
  let p' := exec (@handleWebhook test_collab s newResponse sample_request)
              erring_proc in
  status (eval (@handleWebhook test_collab s newResponse sample_request)
            erring_proc) = Some 200
  /\ goroutines p' = []
  /\ forall p'', steps p' p'' -> calls p'' = [].
Proof.
  intros s p'.
  assert (Hsig : @verifySignature test_collab s sample_payload
                   (Header_Get sample_request "X-Hub-Signature-256") = true)
    by (vm_compute; reflexivity).
  pose proof (@handleWebhook_without_app test_collab s sample_request
                erring_proc sample_payload sample_event eq_refl Hsig eq_refl)
    as (Hstatus & Hnil).
  destruct (Hnil eq_refl) as (Hg & _ & _ & _ & _ & Hnever).
  split; [exact Hstatus|]. split; [exact Hg|].
  exact (Hnever eq_refl).
Defined.

(* ===================================================================== *)
(** * Part III: further properties of the code                            *)
(* ===================================================================== *)

(** ** commands.go *)

Lemma SplitSeq_app (a b : string) (sep : ascii) :
  Strings.SplitSeq (a ++ String sep b) sep
  = (Strings.SplitSeq a sep ++ Strings.SplitSeq b sep)%list.
Proof.
  induction a as [|c a IH]; simpl.
  - now rewrite Ascii.eqb_refl.
  - destruct (Ascii.eqb c sep); [now rewrite IH|].
    rewrite IH. pose proof (SplitSeq_nonempty a sep) as Hne.
    destruct (Strings.SplitSeq a sep); [contradiction | reflexivity].
Qed.

(** X1.  A body made of two texts separated by a newline holds a slash
    command exactly when one of the two texts does. *)
Theorem IsSlashCommand_newline (a b : string) :
  IsSlashCommand (a ++ String newline b) = IsSlashCommand a || IsSlashCommand b.
Proof.
  unfold IsSlashCommand. rewrite SplitSeq_app. apply existsb_app.
Qed.

(** The bytes of a piece are bytes of the string that was split. *)
Lemma SplitSeq_bytes (s : string) (sep : ascii) (piece : string) (c : ascii) :
  In piece (Strings.SplitSeq s sep) ->
  In c (bytes_of piece) -> In c (bytes_of s).
Proof.
  revert piece. induction s as [|c0 s IH]; intros piece; simpl.
  - intros [<-|[]]. auto.
  - destruct (Ascii.eqb c0 sep).
    + intros [<-|H] Hc; [destruct Hc | right; eauto].
    + pose proof (SplitSeq_nonempty s sep) as Hne.
      destruct (Strings.SplitSeq s sep) as [|first rest]; [contradiction|].
      intros [<-|H] Hc.
      * destruct Hc as [->|Hc]; [now left | right].
        apply (IH first); [now left | exact Hc].
      * right. apply (IH piece); [now right | exact Hc].
Qed.

Lemma bytes_of_string_of (l : list ascii) : bytes_of (string_of l) = l.
Proof. apply list_ascii_of_string_of_list_ascii. Qed.

Lemma trimStart_suffix (s r : list ascii) :
  Strings.trimStart s = inl r \/ Strings.trimStart s = inr r ->
  exists skipped, s = (skipped ++ r)%list.
Proof.
  induction s as [|c s IH]; simpl.
  - intros [H|H]; [injection H as <-; now exists [] | discriminate].
  - destruct (Utf8.RuneSelf <=? byteval c).
    { intros [H|H]; [discriminate | injection H as <-; now exists []]. }
    destruct (Strings.asciiSpace (byteval c)).
    + intros H. destruct (IH H) as [skipped ->]. now exists (c :: skipped).
    + intros [H|H]; [injection H as <-; now exists [] | discriminate].
Qed.

Lemma trimStop_suffix (s r : list ascii) :
  Strings.trimStop s = inl r \/ Strings.trimStop s = inr r ->
  exists skipped, s = (skipped ++ r)%list.
Proof.
  induction s as [|c s IH]; simpl.
  - intros [H|H]; [injection H as <-; now exists [] | discriminate].
  - destruct (Utf8.RuneSelf <=? byteval c).
    { intros [H|H]; [discriminate | injection H as <-; now exists []]. }
    destruct (Strings.asciiSpace (byteval c)).
    + intros H. destruct (IH H) as [skipped ->]. now exists (c :: skipped).
    + intros [H|H]; [injection H as <-; now exists [] | discriminate].
Qed.

Lemma drop_incl (n : nat) (s : list ascii) (c : ascii) :
  In c (drop n s) -> In c s.
Proof.
  intros H. apply list_elem_of_In, list_elem_of_lookup in H as [i Hi].
  rewrite lookup_drop in Hi.
  apply list_elem_of_In. eapply list_elem_of_lookup_2. exact Hi.
Qed.

Lemma slice_incl (s : list ascii) (lo hi : Z) (c : ascii) :
  In c (slice s lo hi) -> In c s.
Proof.
  unfold slice. intros H.
  apply list_elem_of_In, elem_of_take in H as (i & Hi & _).
  apply (drop_incl (Z.to_nat lo)).
  apply list_elem_of_In. eapply list_elem_of_lookup_2. exact Hi.
Qed.

(** [TrimSpace] only removes bytes: every byte of the result is a byte
    of the argument. *)
Lemma TrimSpace_bytes (s : string) (c : ascii) :
  In c (bytes_of (Strings.TrimSpace s)) -> In c (bytes_of s).
Proof.
  unfold Strings.TrimSpace.
  destruct (Strings.trimStart (bytes_of s)) as [rest|rest] eqn:E.
  - destruct (trimStart_suffix _ rest (or_introl E)) as [skipped Hs].
    destruct (Strings.trimStop (rev rest)) as [rrest|rrest] eqn:E2.
    + destruct (trimStop_suffix _ rrest (or_introl E2)) as [sk Hr].
      rewrite bytes_of_string_of. intros H. rewrite Hs.
      apply in_or_app. right. apply in_rev. rewrite Hr.
      apply in_or_app. right. now apply in_rev in H.
    + destruct (trimStop_suffix _ rrest (or_intror E2)) as [sk Hr].
      rewrite bytes_of_string_of. intros H. apply slice_incl in H.
      rewrite Hs. apply in_or_app. right. apply in_rev. rewrite Hr.
      apply in_or_app. right. now apply in_rev in H.
  - destruct (trimStart_suffix _ rest (or_intror E)) as [skipped Hs].
    rewrite bytes_of_string_of. intros H. apply slice_incl in H.
    unfold Strings.TrimLeftSpace in H.
    rewrite Hs. apply in_or_app. right.
    eapply drop_incl. exact H.
Qed.

(** X2.  A body in which the byte ["/"] does not occur is never taken
    for a slash command. *)
Theorem IsSlashCommand_needs_slash (body : string) :
  IsSlashCommand body = true -> In "/"%char (bytes_of body).
Proof.
  unfold IsSlashCommand. rewrite existsb_exists.
  intros [line [Hin H]].
  apply andb_true_iff in H as [H _]. apply andb_true_iff in H as [H _].
  apply HasPrefix_iff in H as [rest Hrest].
  apply (SplitSeq_bytes body newline line); [exact Hin|].
  apply TrimSpace_bytes. rewrite Hrest. now left.
Qed.

Lemma IsSlashCommand_needs_slash_witness :
  In "/"%char (bytes_of ("thanks!" ++ String newline "  /oncall ack")).
Proof.
  apply IsSlashCommand_needs_slash. vm_compute. reflexivity.
Defined.

Lemma TrimSpace_skip_space (c : ascii) (s : string) :
  Strings.asciiSpace (byteval c) = true ->
  Strings.TrimSpace (String c s) = Strings.TrimSpace s.
Proof.
  intros Hc. unfold Strings.TrimSpace. cbn [bytes_of list_ascii_of_string Strings.trimStart].
  assert (Hlt : (Utf8.RuneSelf <=? byteval c) = false).
  { unfold Strings.asciiSpace in Hc. unfold Utf8.RuneSelf.
    apply Z.leb_gt.
    repeat (apply orb_true_iff in Hc as [Hc|Hc]; [|apply Z.eqb_eq in Hc; lia]).
    apply Z.eqb_eq in Hc. lia. }
  now rewrite Hlt, Hc.
Qed.

(** X3.  Putting an ASCII white-space byte (space, tab, newline,
    vertical tab, form feed, carriage return) in front of a body does
    not change whether it holds a slash command. *)
Theorem IsSlashCommand_indent (c : ascii) (body : string) :
  Strings.asciiSpace (byteval c) = true ->
  IsSlashCommand (String c body) = IsSlashCommand body.
Proof.
  intros Hc. unfold IsSlashCommand. cbn [Strings.SplitSeq].
  destruct (Ascii.eqb c newline) eqn:E.
  - reflexivity.
  - pose proof (SplitSeq_nonempty body newline) as Hne.
    destruct (Strings.SplitSeq body newline) as [|first rest]; [contradiction|].
    cbn [existsb]. now rewrite TrimSpace_skip_space.
Qed.

Lemma IsSlashCommand_indent_witness :
  IsSlashCommand (String " " "/oncall ack") = IsSlashCommand "/oncall ack".
Proof. apply IsSlashCommand_indent. reflexivity. Defined.

(** ** server.go *)

Section MoreSignature.

Context {collab : Collaborators}.

Lemma hex_encoding_length (h : string) (bs : list byte) :
  hex_encoding h bs -> String.length h = (2 * List.length bs)%nat.
Proof.
  induction 1 as [|c1 c2 hi lo h bs _ _ _ IH]; [reflexivity|].
  cbn [String.length List.length]. lia.
Qed.

(** X4.  An accepted signature is exactly as long as the prefix and
    two digits per byte of the digest: nothing may follow the digits. *)
Theorem verifySignature_length (s : Server) (payload : list byte)
    (sig : string) :
  verifySignature s payload sig = true ->
  String.length sig
  = (7 + 2 * List.length (hmac_sha256 (webhookSecret s) payload))%nat.
Proof.
  intros H. apply verifySignature_iff in H as [h [-> Hh]].
  apply hex_encoding_length in Hh.
  change (String.length ("sha256=" ++ h)) with (7 + String.length h)%nat. lia.
Qed.

Lemma upper_hex_value (c : ascii) :
  Hex.reverseHexTable (upper_hex c) = Hex.reverseHexTable c
  /\ ((0x0f <? Hex.reverseHexTable c) = true -> upper_hex c = c).
Proof.
  destruct c as [[] [] [] [] [] [] [] []]; vm_compute; split;
    solve [reflexivity | discriminate].
Qed.

Lemma Decode_upper_hex (src : list byte) :
  Hex.Decode (map upper_hex src) = Hex.Decode src.
Proof.
  induction src as [|p|p q rest IH] using list_pair_ind.
  - reflexivity.
  - cbn [map Hex.Decode]. destruct (upper_hex_value p) as [-> Hp].
    destruct (0x0f <? Hex.reverseHexTable p) eqn:E; [|reflexivity].
    now rewrite (Hp eq_refl).
  - cbn [map Hex.Decode].
    destruct (upper_hex_value p) as [-> Hp].
    destruct (upper_hex_value q) as [-> Hq].
    destruct (0x0f <? Hex.reverseHexTable p) eqn:Ep; [now rewrite (Hp eq_refl)|].
    destruct (0x0f <? Hex.reverseHexTable q) eqn:Eq; [now rewrite (Hq eq_refl)|].
    now rewrite IH.
Qed.

Lemma bytes_of_map_string (f : ascii -> ascii) (s : string) :
  bytes_of (map_string f s) = map f (bytes_of s).
Proof.
  induction s as [|c s IH]; [reflexivity|].
  cbn [map_string bytes_of list_ascii_of_string map]. f_equal. exact IH.
Qed.

(** X5.  The case of the hexadecimal letters of a signature does not
    matter: writing them in upper case gives the same verdict. *)
Theorem verifySignature_case (s : Server) (payload : list byte) (h : string) :
  verifySignature s payload ("sha256=" ++ map_string upper_hex h)
  = verifySignature s payload ("sha256=" ++ h).
Proof.
  unfold verifySignature.
  assert (Hp : forall t, Strings.HasPrefix ("sha256=" ++ t) "sha256=" = true)
    by (intros t; apply HasPrefix_iff; eauto).
  rewrite !Hp, !TrimPrefix_app. cbn [negb].
  unfold Hex.DecodeString.
  now rewrite bytes_of_map_string, Decode_upper_hex.
Qed.

Local Open Scope list_scope.

(** X6.  A request that reads but carries no [X-Hub-Signature-256]
    header is answered 401 "invalid signature"; the decoder is not
    called and no goroutine is started. *)
Theorem handleWebhook_missing_signature (s : Server) (r : Request) (p : Proc)
    (payload : list byte) :
  Body r = inl payload ->
  Header r !! "X-Hub-Signature-256" = None ->
  let w := eval (handleWebhook s newResponse r) p in
  let p' := exec (handleWebhook s newResponse r) p in
  status w = Some 401
  /\ written w = String.append "invalid signature" (String newline "")
  /\ goroutines p' = goroutines p
  /\ exists effects, trace p' = trace p ++ effects
                     /\ Forall (fun e => ~ parse_effect e) effects.
Proof.
  intros Hbody Hhdr w p'. subst w p'.
  unfold handleWebhook. rewrite Hbody.
  assert (Hsig : Header_Get r "X-Hub-Signature-256" = "")
    by (unfold Header_Get; now rewrite Hhdr).
  rewrite Hsig.
  assert (Hv : verifySignature s payload "" = false) by reflexivity.
  rewrite Hv. cbn.
  repeat (split; [reflexivity|]).
  eexists. split; [rewrite <- !app_assoc; reflexivity|].
  repeat (constructor; [intros (a & b & E); discriminate|]). constructor.
Qed.

End MoreSignature.

Section MoreWebhook.

Context {collab : Collaborators}.

Local Open Scope list_scope.

(** X7.  Whatever the request, the handler opens and closes one span,
    counts the request once and the webhook once, records the latency
    once, and counts one error exactly when it does not answer 200; the
    body is closed exactly when it was read.  The status is 200, 400 or
    401. *)
Theorem handleWebhook_accounting (s : Server) (r : Request) (p : Proc) :
  let w := eval (handleWebhook s newResponse r) p in
  let p' := exec (handleWebhook s newResponse r) p in
  exists effects,
    trace p' = trace p ++ effects
    /\ head effects = Some (EffSpanStart ("server.handle_" ++ WebHookType r)%string)
    /\ last effects = Some EffSpanEnd
    /\ count_effects (is_counter "otto.server.requests_total") effects = 1%nat
    /\ count_effects (is_counter "otto.server.webhooks_total") effects = 1%nat
    /\ count_effects is_latency effects = 1%nat
    /\ count_effects is_body_close effects
       = match Body r with inl _ => 1%nat | inr _ => 0%nat end
    /\ ((status w = Some 200
         /\ count_effects (is_counter "otto.server.errors_total") effects = 0%nat)
        \/ ((status w = Some 400 \/ status w = Some 401)
            /\ count_effects (is_counter "otto.server.errors_total") effects
               = 1%nat)).
Proof.
  intros w p'. subst w p'. unfold handleWebhook.
  destruct (Body r) as [payload|err].
  - destruct (verifySignature s payload _); cbn [negb].
    + destruct (ParseWebHook (WebHookType r) payload) as [event|err].
      * destruct (app s) as [a|].
        -- rewrite !exec_bind, !eval_bind.
           cbn -[DispatchEvent]. rewrite DispatchEvent_eq. cbn.
           eexists. split; [rewrite <- !app_assoc; reflexivity|].
           repeat (split; [reflexivity|]). left. split; reflexivity.
        -- cbn. eexists. split; [rewrite <- !app_assoc; reflexivity|].
           repeat (split; [reflexivity|]). left. split; reflexivity.
      * cbn. eexists. split; [rewrite <- !app_assoc; reflexivity|].
        repeat (split; [reflexivity|]). right. split; [now left | reflexivity].
    + cbn. eexists. split; [rewrite <- !app_assoc; reflexivity|].
      repeat (split; [reflexivity|]). right. split; [now right | reflexivity].
  - cbn. eexists. split; [rewrite <- !app_assoc; reflexivity|].
    repeat (split; [reflexivity|]). right. split; [now left | reflexivity].
Qed.

(** X8.  A request whose header is ["sha256="] and the lower-case
    hexadecimal HMAC of its body under the server's secret is never
    answered 401; when its payload decodes it is answered 200, and a
    server with an application starts one goroutine per registered
    module. *)
Theorem handleWebhook_signed (s : Server) (r : Request) (p : Proc)
    (payload : list byte) :
  Body r = inl payload ->
  Header r !! "X-Hub-Signature-256"
  = Some ("sha256=" ++ Hex.EncodeToString (hmac_sha256 (webhookSecret s) payload))%string ->
  let w := eval (handleWebhook s newResponse r) p in
  let p' := exec (handleWebhook s newResponse r) p in
  status w <> Some 401
  /\ forall event, ParseWebHook (WebHookType r) payload = inl event ->
       status w = Some 200
       /\ forall a, app s = Some a ->
            goroutines p'
            = goroutines p
                ++ dispatched (heap p !!! modules) (WebHookType r) event payload.
Proof.
  intros Hbody Hhdr w p'. subst w p'.
  unfold handleWebhook. rewrite Hbody.
  assert (Hsig : verifySignature s payload
                   (Header_Get r "X-Hub-Signature-256") = true).
  { unfold Header_Get. rewrite Hhdr. cbn [default].
    apply verifySignature_iff. eexists. split; [reflexivity|].
    apply EncodeToString_hex_encoding. }
  rewrite Hsig. cbn [negb].
  destruct (ParseWebHook (WebHookType r) payload) as [event|err] eqn:Ep.
  - split.
    + destruct (app s); rewrite !eval_bind; cbn; discriminate.
    + intros event' E. injection E as <-. split.
      * destruct (app s); rewrite !eval_bind; reflexivity.
      * intros a ->. rewrite !exec_bind.
        cbn -[DispatchEvent]. rewrite DispatchEvent_eq. reflexivity.
  - split; [cbn; discriminate|]. intros event E. discriminate.
Qed.

End MoreWebhook.

Lemma handleWebhook_signed_witness :
  status (eval (@handleWebhook test_collab
                  (NewServerWithApp "It's a Secret to Everybody" "8080"
                     (Some test_app))
                  newResponse sample_request) erring_proc) = Some 200.
Proof.
  pose proof (@handleWebhook_signed test_collab
                (NewServerWithApp "It's a Secret to Everybody" "8080"
                   (Some test_app))
                sample_request erring_proc sample_payload eq_refl) as H.
  destruct H as [_ H]; [vm_compute; reflexivity|].
  destruct (H sample_event eq_refl) as [Hs _]. exact Hs.
Defined.

Lemma handleWebhook_missing_signature_witness :
  status (eval (@handleWebhook test_collab
                  (NewServer "It's a Secret to Everybody" "8080") newResponse
                  {| Method := "POST"; Path := "/webhook"; Header := ∅;
                     Body := inl sample_payload |}) erring_proc) = Some 401.
Proof.
  pose proof (@handleWebhook_missing_signature test_collab
                (NewServer "It's a Secret to Everybody" "8080")
                {| Method := "POST"; Path := "/webhook"; Header := ∅;
                   Body := inl sample_payload |}
                erring_proc sample_payload eq_refl eq_refl) as (H & _).
  exact H.
Defined.

Lemma verifySignature_length_witness :
  String.length sample_signature = 71%nat.
Proof.
  pose proof (@verifySignature_length test_collab
                (NewServer "It's a Secret to Everybody" "8080")
                sample_payload sample_signature) as H.
  rewrite H; vm_compute; reflexivity.
Defined.

(** ** modules.go *)

Section MoreRegistry.

Context {collab : Collaborators}.

Local Open Scope list_scope.

Lemma RegisterModule_heap (m : Module) (p : Proc) :
  heap (exec (RegisterModule m) p) = alter (register_one m) modules (heap p).
Proof.
  destruct ((heap p !!! modules) !! Name m) as [m0|] eqn:En.
  - rewrite (RegisterModule_taken _ _ _ En). cbn [heap set_slog].
    symmetry. apply alter_id. intros reg E.
    rewrite lookup_total_alt, E in En. cbn in En.
    unfold register_one. now rewrite En.
  - rewrite (RegisterModule_free _ _ En). cbn [heap set_slog set_heap].
    apply alter_ext. intros reg E.
    rewrite lookup_total_alt, E in En. cbn in En.
    unfold register_one. now rewrite En.
Qed.

Lemma RegisterModule_frame (m : Module) (p : Proc) :
  goroutines (exec (RegisterModule m) p) = goroutines p
  /\ calls (exec (RegisterModule m) p) = calls p
  /\ world (exec (RegisterModule m) p) = world p
  /\ crashed (exec (RegisterModule m) p) = crashed p
  /\ trace (exec (RegisterModule m) p) = trace p.
Proof.
  destruct ((heap p !!! modules) !! Name m) as [m0|] eqn:En.
  - rewrite (RegisterModule_taken _ _ _ En). cbn. auto.
  - rewrite (RegisterModule_free _ _ En). cbn. auto.
Qed.

Lemma forEach_RegisterModule_heap (ms : list Module) (p : Proc) :
  heap (exec (forEach ms RegisterModule) p)
  = alter (register_all ms) modules (heap p).
Proof.
  revert p. induction ms as [|m ms IH]; intros p.
  - cbn. now rewrite alter_id.
  - cbn [forEach]. rewrite exec_bind, IH, RegisterModule_heap.
    now rewrite alter_alter_eq.
Qed.

Lemma register_all_lookup (ms : list Module) (reg : gmap string Module)
    (n : string) :
  register_all ms reg !! n
  = match reg !! n with
    | Some m => Some m
    | None => first_named n ms
    end.
Proof.
  revert reg. induction ms as [|m ms IH]; intros reg.
  - cbn. now destruct (reg !! n).
  - unfold register_all in *. cbn [foldl first_named]. rewrite IH.
    unfold register_one.
    destruct (String.eqb (Name m) n) eqn:E.
    + apply String.eqb_eq in E. subst n.
      destruct (reg !! Name m) eqn:En; [now rewrite En|].
      now rewrite lookup_insert_eq.
    + apply String.eqb_neq in E.
      destruct (reg !! Name m) eqn:En; [reflexivity|].
      now rewrite lookup_insert_ne.
Qed.

Lemma forEach_RegisterModule_lookup (ms : list Module) (p : Proc) (n : string) :
  is_Some (heap p !! modules) ->
  (heap (exec (forEach ms RegisterModule) p) !!! modules) !! n
  = match (heap p !!! modules) !! n with
    | Some m => Some m
    | None => first_named n ms
    end.
Proof.
  intros [reg Hreg]. rewrite forEach_RegisterModule_heap.
  rewrite lookup_total_alter_eq, lookup_total_alt, Hreg. cbn.
  apply register_all_lookup.
Qed.

(** X9.  After any list of modules is registered in an initialised
    process, a name bound before is still bound to the same module, and
    a name that was free is bound to the first module of the list that
    carries it (to nothing when there is none): registration never
    replaces or removes a module.  No other map of the heap changes. *)
Theorem RegisterModule_first_wins (ms : list Module) (p : Proc) (n : string) :
  is_Some (heap p !! modules) ->
  let p' := exec (forEach ms RegisterModule) p in
  (heap p' !!! modules) !! n
  = match (heap p !!! modules) !! n with
    | Some m => Some m
    | None => first_named n ms
    end
  /\ forall l, l <> modules -> heap p' !! l = heap p !! l.
Proof.
  intros Hinit p'. subst p'. split.
  - now apply forEach_RegisterModule_lookup.
  - intros l Hl. rewrite forEach_RegisterModule_heap. now apply lookup_alter_ne.
Qed.

Lemma first_named_name (n : string) (ms : list Module) (m : Module) :
  first_named n ms = Some m -> Name m = n /\ In m ms.
Proof.
  induction ms as [|m0 ms IH]; cbn; [discriminate|].
  destruct (String.eqb (Name m0) n) eqn:E.
  - intros H. injection H as <-. apply String.eqb_eq in E. auto.
  - intros H. destruct (IH H). auto.
Qed.

(** X10.  Registration keeps the registry keyed by module names: when
    every name is bound to a module of that name, it is still so after
    any list of modules is registered. *)
Theorem RegisterModule_keys_are_names (ms : list Module) (p : Proc) :
  is_Some (heap p !! modules) ->
  registry_keys_are_names p ->
  registry_keys_are_names (exec (forEach ms RegisterModule) p).
Proof.
  intros Hinit Hok n m H.
  rewrite (forEach_RegisterModule_lookup ms p n Hinit) in H.
  destruct ((heap p !!! modules) !! n) as [m0|] eqn:E0.
  - injection H as <-. now apply Hok.
  - now apply first_named_name in H.
Qed.

Lemma first_named_NoDup (n : string) (ms : list Module) (m : Module) :
  NoDup (map Name ms) -> In m ms -> Name m = n -> first_named n ms = Some m.
Proof.
  induction ms as [|m0 ms IH]; cbn; [intros _ []|].
  intros Hnd Hin Hn. apply NoDup_cons in Hnd as [Hnotin Hnd].
  destruct Hin as [->|Hin].
  - subst n. now rewrite String.eqb_refl.
  - destruct (String.eqb (Name m0) n) eqn:E; [|now apply IH].
    apply String.eqb_eq in E. exfalso. apply Hnotin.
    rewrite E, <- Hn. apply list_elem_of_In, in_map, Hin.
Qed.

Lemma first_named_perm (n : string) (ms ms' : list Module) :
  NoDup (map Name ms) -> Permutation ms ms' ->
  first_named n ms = first_named n ms'.
Proof.
  intros Hnd Hperm.
  assert (Hnd' : NoDup (map Name ms'))
    by (rewrite <- Hperm; exact Hnd).
  destruct (first_named n ms) as [m|] eqn:E.
  - apply first_named_name in E as [Hn Hin]. symmetry.
    apply first_named_NoDup; [exact Hnd' | | exact Hn].
    apply list_elem_of_In. rewrite <- Hperm. now apply list_elem_of_In.
  - destruct (first_named n ms') as [m|] eqn:E'; [|reflexivity].
    apply first_named_name in E' as [Hn Hin].
    rewrite (first_named_NoDup n ms m) in E; [discriminate | exact Hnd | | exact Hn].
    apply list_elem_of_In. rewrite Hperm. now apply list_elem_of_In.
Qed.

(** X11.  The order in which modules of different names are registered
    does not matter: two orders of the same modules leave the same
    heap. *)
Theorem RegisterModule_order (ms ms' : list Module) (p : Proc) :
  NoDup (map Name ms) ->
  Permutation ms ms' ->
  heap (exec (forEach ms RegisterModule) p)
  = heap (exec (forEach ms' RegisterModule) p).
Proof.
  intros Hnd Hperm. rewrite !forEach_RegisterModule_heap.
  apply alter_ext. intros reg _. apply map_eq. intros n.
  rewrite !register_all_lookup.
  now rewrite (first_named_perm n ms ms' Hnd Hperm).
Qed.

End MoreRegistry.

Lemma RegisterModule_first_wins_witness :
  (heap (exec (forEach [mockModule "testmod"; errModule "testmod"]
                 RegisterModule) (@init_proc test_collab ∅)) !!! modules)
    !! "testmod"
  = Some (mockModule "testmod").
Proof.
  pose proof (@RegisterModule_first_wins test_collab
                [mockModule "testmod"; errModule "testmod"]
                (@init_proc test_collab ∅) "testmod"
                (ex_intro _ ∅ eq_refl)) as [H _].
  exact H.
Defined.

Lemma RegisterModule_keys_are_names_witness :
  registry_keys_are_names
    (exec (forEach [mockModule "testmod"; errModule "failing"] RegisterModule)
       (@init_proc test_collab ∅)).
Proof.
  apply (@RegisterModule_keys_are_names test_collab).
  - eexists. reflexivity.
  - intros n m H. change (heap (@init_proc test_collab ∅) !!! modules)
      with (∅ : gmap string (@Module test_collab)) in H.
    rewrite lookup_empty in H. discriminate H.
Defined.

Lemma RegisterModule_order_witness :
  heap (exec (forEach [mockModule "testmod"; errModule "failing"] RegisterModule)
          (@init_proc test_collab ∅))
  = heap (exec (forEach [errModule "failing"; mockModule "testmod"] RegisterModule)
            (@init_proc test_collab ∅)).
Proof.
  apply (@RegisterModule_order test_collab).
  - cbn. repeat constructor; [|apply not_elem_of_nil].
    intros H. apply list_elem_of_In in H. destruct H as [H|[]]. discriminate H.
  - apply perm_swap.
Defined.

(** ** app.go: more on dispatch *)

Section MoreDispatch.

Context {collab : Collaborators}.

Local Open Scope list_scope.

(** Calls are only ever added. *)
Lemma steps_calls_grow (p p' : Proc) :
  steps p p' -> exists new, calls p' = calls p ++ new.
Proof.
  induction 1 as [p|p q r Hstep _ [new IH]].
  - exists []. now rewrite app_nil_r.
  - destruct Hstep as [p g before after _ _].
    destruct (run_goroutine_calls g (set_goroutines (before ++ after) p))
      as (Hc & _ & _).
    rewrite IH, Hc. cbn [calls set_goroutines].
    exists ([call_of g] ++ new). now rewrite app_assoc.
Qed.

Lemma quiescent_calls (p p' : Proc) (expected : list Call) :
  steps p p' -> goroutines p' = [] ->
  map call_of (goroutines p) = expected ->
  exists new, calls p' = calls p ++ new /\ Permutation new expected.
Proof.
  intros Hs Hdone Hexp.
  destruct (steps_calls_grow _ _ Hs) as [new Hnew].
  exists new. split; [exact Hnew|].
  pose proof (steps_deliveries _ _ Hs) as Hperm.
  rewrite Hdone, Hnew, Hexp in Hperm. cbn [map] in Hperm.
  rewrite app_nil_r in Hperm.
  now apply Permutation_app_inv_l in Hperm.
Qed.

Lemma dispatched_calls (mods : gmap string Module) (eventType : string)
    (event : Event) (raw : list byte) :
  map call_of (dispatched mods eventType event raw)
  = deliveries mods eventType event raw.
Proof. unfold dispatched, deliveries. now rewrite map_map. Qed.

Lemma DispatchEvent_goroutines (a : App) (eventType : string) (event : Event)
    (raw : list byte) (p : Proc) :
  let p0 := exec (DispatchEvent a eventType event raw) p in
  goroutines p0
  = goroutines p ++ dispatched (heap p !!! modules) eventType event raw
  /\ calls p0 = calls p
  /\ crashed p0 = crashed p
  /\ (is_Some (heap p !! modules) ->
      heap p0 !! modules = heap p !! modules).
Proof.
  cbn zeta. rewrite DispatchEvent_eq. cbn.
  repeat (split; [reflexivity|]).
  intros Hinit. apply lookup_insert_ne. now apply fresh_not_allocated.
Qed.

(** X12.  A dispatch works on the snapshot it took: a module registered
    after [DispatchEvent] returned does not receive that event.  When
    all the goroutines of the dispatch have run, the calls made are the
    deliveries to the modules registered at the time of the dispatch,
    and none goes to a module whose name was free then. *)
Theorem DispatchEvent_snapshot (a : App) (eventType : string) (event : Event)
    (raw : list byte) (late : Module) (p p' : Proc) :
  goroutines p = [] ->
  steps (exec (RegisterModule late)
           (exec (DispatchEvent a eventType event raw) p)) p' ->
  goroutines p' = [] ->
  exists new,
    calls p' = calls p ++ new
    /\ Permutation new (deliveries (heap p !!! modules) eventType event raw)
    /\ ((heap p !!! modules) !! Name late = None ->
        ~ In (Name late) (map call_name new)).
Proof.
  intros Hquiet Hs Hdone.
  set (p0 := exec (DispatchEvent a eventType event raw) p) in *.
  destruct (DispatchEvent_goroutines a eventType event raw p)
    as (Hg & Hc & _ & _). fold p0 in Hg, Hc.
  destruct (RegisterModule_frame late p0) as (Hg1 & Hc1 & _).
  destruct (quiescent_calls _ _ (deliveries (heap p !!! modules) eventType event raw)
              Hs Hdone) as (new & Hnew & Hperm).
  { rewrite Hg1, Hg, Hquiet, app_nil_l. apply dispatched_calls. }
  exists new. rewrite Hc1, Hc in Hnew.
  split; [exact Hnew|]. split; [exact Hperm|].
  intros Hfree Hin.
  apply in_map_iff in Hin as (c & Hname & Hin).
  apply list_elem_of_In in Hin. rewrite Hperm in Hin.
  apply list_elem_of_In in Hin.
  destruct (deliveries_spec (heap p !!! modules) eventType event raw)
    as (_ & _ & Hsound & _).
  destruct (Hsound c Hin) as (Hlook & _).
  rewrite Hname in Hlook. congruence.
Qed.


Lemma pick_index {A} (i : nat) (l : list A) (x : A) :
  l !! i = Some x -> pick i l = Some (x, take i l ++ drop (S i) l).
Proof.
  intros H. unfold pick.
  assert (Hlt : (i < List.length l)%nat) by (eapply lookup_lt_Some; eauto).
  rewrite Nat.mod_small by exact Hlt. now rewrite H.
Qed.

(** X14.  The order of delivery is free: after a dispatch from a live
    process with no goroutine started, any registered module may be the
    first one called. *)
Theorem DispatchEvent_any_first (a : App) (eventType : string) (event : Event)
    (raw : list byte) (p : Proc) (n : string) (m : Module) :
  goroutines p = [] ->
  crashed p = false ->
  (heap p !!! modules) !! n = Some m ->
  exists i,
    calls (run [i] (exec (DispatchEvent a eventType event raw) p))
    = calls p ++ [{| call_name := n; call_module := m;
                     call_eventType := eventType; call_event := event;
                     call_raw := raw |}].
Proof.
  intros Hquiet Hlive Hm.
  set (p0 := exec (DispatchEvent a eventType event raw) p).
  destruct (DispatchEvent_goroutines a eventType event raw p)
    as (Hg & Hc & Hl & _). fold p0 in Hg, Hc, Hl.
  rewrite Hquiet, app_nil_l in Hg.
  assert (Hin : GoHandleEvent n m eventType event raw ∈ goroutines p0).
  { rewrite Hg. unfold dispatched. apply list_elem_of_In, in_map_iff.
    exists (n, m). split; [reflexivity|].
    now apply list_elem_of_In, elem_of_map_to_list. }
  apply list_elem_of_lookup in Hin as [i Hi].
  exists i. cbn [run]. rewrite Hl, Hlive, (pick_index _ _ _ Hi).
  destruct (run_goroutine_calls (GoHandleEvent n m eventType event raw)
              (set_goroutines (take i (goroutines p0) ++ drop (S i) (goroutines p0)) p0))
    as (Hcalls & _ & _).
  rewrite Hcalls. cbn [calls set_goroutines call_of]. now rewrite Hc.
Qed.


End MoreDispatch.


Lemma DispatchEvent_snapshot_witness :
  let p' := run [0; 0]%nat
              (exec (RegisterModule (mockModule "late"))
                 (exec (DispatchEvent test_app "ping" sample_event sample_payload)
                    erring_proc)) in
  exists new,
    calls p' = (calls erring_proc ++ new)%list
    /\ Permutation new (deliveries (heap erring_proc !!! modules) "ping"
                          sample_event sample_payload)
    /\ ((heap erring_proc !!! modules) !! "late" = None ->
        ~ In "late" (map call_name new)).
Proof.
  intros p'.
  apply (@DispatchEvent_snapshot test_collab test_app "ping" sample_event
           sample_payload (mockModule "late") erring_proc p').
  - reflexivity.
  - apply run_steps.
  - reflexivity.
Defined.


Lemma DispatchEvent_any_first_witness :
  exists i,
    map call_name
      (calls (run [i] (exec (DispatchEvent test_app "ping" sample_event
                               sample_payload) erring_proc)))
    = ["testmod"].
Proof.
  destruct (@DispatchEvent_any_first test_collab test_app "ping" sample_event
              sample_payload erring_proc "testmod" (mockModule "testmod")
              eq_refl eq_refl eq_refl) as [i Hi].
  exists i. rewrite Hi. reflexivity.
Defined.


(** ** config.go: more on loading *)

Lemma ApplyConfigDefaults_twice (config : AppConfig) :
  ApplyConfigDefaults (ApplyConfigDefaults config) = ApplyConfigDefaults config.
Proof.
  unfold ApplyConfigDefaults. cbn [Port DBPath Log WebHookSecret GitHubToken Modules].
  f_equal.
  - destruct (String.eqb (Port config) "") eqn:E; [reflexivity | now rewrite E].
  - destruct (String.eqb (DBPath config) "") eqn:E; [reflexivity | now rewrite E].
  - now destruct (Log config).
Qed.

(** X16.  Applying the defaults twice is applying them once, and the
    defaults do not change the verdict of the validation: a
    configuration can be validated before or after them. *)
Theorem ApplyConfigDefaults_idempotent (config : AppConfig) :
  ApplyConfigDefaults (ApplyConfigDefaults config) = ApplyConfigDefaults config
  /\ ValidateConfig (ApplyConfigDefaults config) = ValidateConfig config.
Proof.
  split; [apply ApplyConfigDefaults_twice | reflexivity].
Qed.

Section MoreConfig.

Context {collab : Collaborators}.

Local Open Scope list_scope.

(** X17.  Whatever the file holds, a configuration that
    [LoadConfigFromFile] returns is complete: the secret, the port and
    the storage path are not empty and the log block is there; it
    passes the validation, the defaults leave it as it is, and its
    summary is the one record the load has logged. *)
Theorem LoadConfigFromFile_loaded_complete (path : string) (p : Proc)
    (loaded : AppConfig) :
  eval (LoadConfigFromFile path) p = inl loaded ->
  WebHookSecret loaded <> "" /\ Port loaded <> "" /\ DBPath loaded <> ""
  /\ is_Some (Log loaded)
  /\ ValidateConfig loaded = None
  /\ ApplyConfigDefaults loaded = loaded
  /\ exec (LoadConfigFromFile path) p
     = set_slog (slog p ++ [configSummary loaded]) p.
Proof.
  unfold LoadConfigFromFile, eval, exec.
  destruct (os_Open path) as [f|e]; [|discriminate].
  destruct (yaml_Decode f) as [config|e]; [|discriminate].
  destruct (ValidateConfig config) as [e|] eqn:Ev; [discriminate|].
  cbn [fst snd bind ret]. intros H. injection H as <-.
  assert (Hs : WebHookSecret config <> "").
  { intros Hs. apply ValidateConfig_iff in Hs as [err Herr]. congruence. }
  split; [exact Hs|].
  split.
  { unfold ApplyConfigDefaults; cbn [Port].
    destruct (String.eqb (Port config) "") eqn:E; [discriminate|].
    now apply String.eqb_neq in E. }
  split.
  { unfold ApplyConfigDefaults; cbn [DBPath].
    destruct (String.eqb (DBPath config) "") eqn:E; [discriminate|].
    now apply String.eqb_neq in E. }
  split; [unfold ApplyConfigDefaults; cbn [Log]; destruct (Log config); eauto|].
  split; [exact Ev|].
  split; [apply ApplyConfigDefaults_twice | reflexivity].
Qed.

(** X18.  A load that fails has no effect: nothing is logged and the
    process is as before.  Its error is the cause of the failed open
    or decode behind a fixed prefix, or the message of the
    validation. *)
Theorem LoadConfigFromFile_failure (path : string) (p : Proc) (err : error) :
  eval (LoadConfigFromFile path) p = inr err ->
  exec (LoadConfigFromFile path) p = p
  /\ ((exists cause, os_Open path = inr cause
                     /\ err = "failed to open config file: " ++ cause)%string
      \/ (exists f cause, os_Open path = inl f /\ yaml_Decode f = inr cause
                          /\ err = "failed to decode config: " ++ cause)%string
      \/ (exists f config, os_Open path = inl f /\ yaml_Decode f = inl config
                           /\ WebHookSecret config = ""
                           /\ err = "webhook secret must be set")).
Proof.
  unfold LoadConfigFromFile, eval, exec.
  destruct (os_Open path) as [f|e].
  2:{ cbn. intros H. injection H as <-. split; [reflexivity|]. left. eauto. }
  destruct (yaml_Decode f) as [config|e] eqn:Ed.
  2:{ cbn. intros H. injection H as <-. split; [reflexivity|].
      right. left. eauto. }
  destruct (ValidateConfig config) as [e|] eqn:Ev; [|discriminate].
  cbn. intros H. injection H as <-. split; [reflexivity|].
  right. right. exists f, config.
  unfold ValidateConfig in Ev.
  destruct (String.eqb (WebHookSecret config) "") eqn:E; [|discriminate].
  apply String.eqb_eq in E. injection Ev as <-. auto.
Qed.

End MoreConfig.

Lemma LoadConfigFromFile_loaded_complete_witness :
  Port (ApplyConfigDefaults sample_config) <> ""
  /\ slog (exec (@LoadConfigFromFile test_collab "otto.yaml")
             (@init_proc test_collab ∅))
     = [configSummary (ApplyConfigDefaults sample_config)].
Proof.
  destruct (@LoadConfigFromFile_loaded_complete test_collab "otto.yaml"
              (@init_proc test_collab ∅) (ApplyConfigDefaults sample_config)
              eq_refl) as (_ & HP & _ & _ & _ & _ & Hrun).
  split; [exact HP|]. rewrite Hrun. reflexivity.
Defined.

Lemma LoadConfigFromFile_failure_witness :
  exec (@LoadConfigFromFile test_collab "missing.yaml")
    (@init_proc test_collab ∅)
  = @init_proc test_collab ∅.
Proof.
  exact (proj1 (@LoadConfigFromFile_failure test_collab "missing.yaml"
                  (@init_proc test_collab ∅)
                  "failed to open config file: open missing.yaml: no such file or directory"
                  eq_refl)).
Defined.

(** ** telemetry.go, app.go: more on shutdown *)

Lemma shutdown_in_order_spec {collab : Collaborators} (prs : list Provider) :
  let '(done, r) := shutdown_in_order prs in
  exists rest, prs = (done ++ rest)%list
    /\ match r with
       | Some err =>
           exists before pr, done = (before ++ [pr])%list
             /\ provider_Shutdown pr = Some err
             /\ Forall (fun q => provider_Shutdown q = None) before
       | None => rest = [] /\ Forall (fun q => provider_Shutdown q = None) done
       end.
Proof.
  induction prs as [|pr prs IH]; cbn.
  - exists []. repeat split. constructor.
  - destruct (provider_Shutdown pr) as [err|] eqn:E.
    + exists prs. split; [reflexivity|]. exists [], pr. repeat split; auto.
    + destruct (shutdown_in_order prs) as [done r].
      destruct IH as (rest & -> & H). exists rest. split; [reflexivity|].
      destruct r as [err|].
      * destruct H as (before & q & -> & Hq & Hb).
        exists (pr :: before), q. repeat split; auto.
      * destruct H as [-> Hd]. split; [reflexivity|]. now constructor.
Qed.

Section MoreShutdown.

Context {collab : Collaborators}.

Local Open Scope list_scope.

Lemma ShutdownTelemetry_in_order (p : Proc) :
  ShutdownTelemetry p
  = (snd (shutdown_in_order (filter (fun pr => providers p pr) provider_order)),
     set_trace (trace p ++ map EffProviderShutdown
                  (fst (shutdown_in_order
                          (filter (fun pr => providers p pr) provider_order)))) p).
Proof.
  assert (Hsame : set_trace (trace p ++ []) p = p)
    by (rewrite app_nil_r; now destruct p).
  unfold ShutdownTelemetry, bind, shutdownProvider, provider_order, emit, exec, ret.
  cbn [filter list_filter].
  destruct (providers p TracerProvider) eqn:ET;
    destruct (providers p MeterProvider) eqn:EM;
    destruct (providers p LoggerProvider) eqn:EL;
    cbn [decide_rel decide bool_decide];
    repeat match goal with
           | |- context [decide (Is_true ?b)] => destruct (decide (Is_true b)) as [?|?]
           end.
  all: try match goal with
           | H : ~ _ |- _ => exfalso; apply H; exact I
           | H : Is_true false |- _ => destruct H
           end.
  all: destruct (provider_Shutdown TracerProvider) eqn:ST;
    destruct (provider_Shutdown MeterProvider) eqn:SM;
    destruct (provider_Shutdown LoggerProvider) eqn:SL.
  all: repeat first
         [ rewrite ET | rewrite EM | rewrite EL
         | rewrite ST | rewrite SM | rewrite SL
         | progress cbn [snd fst providers set_trace trace shutdown_in_order map] ].
  all: rewrite <- ?app_assoc; cbn [app]; rewrite ?Hsame; reflexivity.
Qed.

End MoreShutdown.

Section MoreAppShutdown.

Context {collab : Collaborators}.

Local Open Scope list_scope.

(** X19.  [ShutdownTelemetry] visits the providers that were set, in
    the order tracer, meter, logger, and stops at the first whose
    shutdown fails: it returns that error, and the providers after it
    are not shut down.  It returns nil only when every provider that
    was set has been shut down.  Nothing but these shutdowns
    happens. *)
Theorem ShutdownTelemetry_first_failure (p : Proc) :
  let live := filter (fun pr => providers p pr) provider_order in
  exists done rest,
    live = done ++ rest
    /\ exec ShutdownTelemetry p
       = set_trace (trace p ++ map EffProviderShutdown done) p
    /\ match eval ShutdownTelemetry p with
       | Some err =>
           exists before pr,
             done = before ++ [pr]
             /\ provider_Shutdown pr = Some err
             /\ Forall (fun q => provider_Shutdown q = None) before
       | None =>
           rest = [] /\ Forall (fun q => provider_Shutdown q = None) done
       end.
Proof.
  intros live. unfold exec, eval. rewrite ShutdownTelemetry_in_order.
  fold live. pose proof (shutdown_in_order_spec live) as H.
  destruct (shutdown_in_order live) as [done r].
  destruct H as (rest & Hlive & Hr).
  exists done, rest. cbn [fst snd]. auto.
Qed.

Lemma ShutdownTelemetry_exec (p : Proc) :
  exec ShutdownTelemetry p
  = set_trace (trace p ++ map EffProviderShutdown
                 (fst (shutdown_in_order
                         (filter (fun pr => providers p pr) provider_order)))) p.
Proof. unfold exec. now rewrite ShutdownTelemetry_in_order. Qed.

Lemma emit_eq (e : Effect) (p : Proc) :
  exec (emit e) p = set_trace (trace p ++ [e]) p.
Proof. reflexivity. Qed.

Lemma logIfErr_eq (msg : string) (r : option error) (p : Proc) :
  exec (logIfErr msg r) p
  = set_slog (slog p ++ match r with
                        | Some err => [error_record msg err]
                        | None => []
                        end) p.
Proof.
  destruct r as [err|]; [reflexivity|].
  cbn. rewrite app_nil_r. now destruct p.
Qed.

(** [shutdownModules] works on a snapshot: the registry, the started
    goroutines and the handler calls are as before. *)
Lemma shutdownModules_frame (a : App) (sch : list nat) (p : Proc) :
  is_Some (heap p !! modules) ->
  let p' := exec (shutdownModules a sch) p in
  heap p' !!! modules = heap p !!! modules
  /\ is_Some (heap p' !! modules)
  /\ goroutines p' = goroutines p
  /\ calls p' = calls p.
Proof.
  intros Hinit.
  unfold shutdownModules, eval, exec, bind. rewrite GetModules_eq.
  unfold readMap. cbn [heap set_heap fst snd].
  rewrite lookup_total_insert_eq.
  set (p1 := set_heap _ p).
  destruct (waitShutdowns_spec
              (List.length (shutdowners (heap p !!! modules))) sch
              (shutdowners (heap p !!! modules)) [] p1 eq_refl)
    as (results & _ & _ & _ & _ & Hh & _ & _ & Hg & Hc).
  unfold eval, exec in *.
  destruct (waitShutdowns _ _ _ _ p1) as [errors p2].
  cbn [fst snd ret] in *. rewrite Hh, Hg, Hc. subst p1.
  cbn [heap goroutines calls set_heap].
  pose proof (fresh_not_allocated p modules Hinit) as Hfresh.
  rewrite lookup_total_insert_ne, lookup_insert_ne by exact Hfresh.
  auto.
Qed.

(** One run of [App.Shutdown]: what leaves the package, and what is
    left alone. *)
Lemma App_Shutdown_run (a : App) (sch : list nat) (p : Proc) :
  is_Some (heap p !! modules) ->
  let p' := exec (App_Shutdown a sch) p in
  exists results tele,
    shutdown_results (shutdowners (heap p !!! modules)) results
    /\ Forall provider_effect tele
    /\ trace p'
       = trace p ++ [EffServerShutdown]
           ++ map EffModuleShutdown (map fst results)
           ++ tele
           ++ match DB a with Some _ => [EffDBClose] | None => [] end
    /\ heap p' !!! modules = heap p !!! modules
    /\ is_Some (heap p' !! modules)
    /\ goroutines p' = goroutines p
    /\ calls p' = calls p
    /\ crashed p' = crashed p
    /\ providers p' = providers p.
Proof.
  intros Hinit p'. subst p'. unfold App_Shutdown.
  rewrite exec_bind, emit_eq.
  set (p1 := set_trace _ p).
  rewrite exec_bind, logIfErr_eq.
  set (p2 := set_slog _ p1).
  rewrite exec_bind.
  assert (Hinit2 : is_Some (heap p2 !! modules)) by exact Hinit.
  destruct (shutdownModules_spec a sch p2)
    as (results & Hres & Hev & Ht3 & _ & Hc3 & Hp3).
  destruct (shutdownModules_frame a sch p2 Hinit2) as (Hh3 & Hi3 & Hg3 & Hk3).
  set (p3 := exec (shutdownModules a sch) p2) in *.
  rewrite exec_bind, logIfErr_eq.
  set (p4 := set_slog _ p3).
  rewrite exec_bind.
  rewrite ShutdownTelemetry_exec.
  set (tele := map EffProviderShutdown _).
  set (p5 := set_trace _ p4).
  rewrite exec_bind, logIfErr_eq.
  set (p6 := set_slog _ p5).
  rewrite exec_bind.
  change (exec (ret None) ?q) with q.
  exists results, tele.
  split; [exact Hres|].
  split.
  { subst tele. apply Forall_forall. intros e He.
    apply list_elem_of_In, in_map_iff in He as (pr & <- & _). now exists pr. }
  assert (Hdb : forall q : Proc,
             let q' := exec (match DB a with
                             | Some _ =>
                                 emit EffDBClose ;;
                                 logIfErr "Error closing database" db_Close
                             | None => ret tt
                             end) q in
             trace q' = trace q
                          ++ match DB a with Some _ => [EffDBClose] | None => [] end
             /\ heap q' = heap q /\ goroutines q' = goroutines q
             /\ calls q' = calls q /\ crashed q' = crashed q
             /\ providers q' = providers q).
  { intros q. destruct (DB a).
    - cbn zeta. rewrite exec_bind, emit_eq, logIfErr_eq. cbn. auto 10.
    - cbn. rewrite app_nil_r. auto 10. }
  destruct (Hdb p6) as (Ht7 & Hh7 & Hg7 & Hk7 & Hc7 & Hp7).
  rewrite Ht7, Hh7, Hg7, Hk7, Hc7, Hp7.
  subst p6 p5 p4.
  cbn [trace heap goroutines calls crashed providers set_slog set_trace].
  rewrite Ht3, Hh3, Hg3, Hk3, Hc3, Hp3. subst p2 p1.
  cbn [trace heap goroutines calls crashed providers set_slog set_trace].
  rewrite <- !app_assoc. auto 10.
Qed.

(** X20.  [App.Shutdown] neither runs nor drops what is still going
    on: the goroutines that were started for events and have not run
    are still there, no handler has been called, the registry holds
    the same modules, and the telemetry providers stay set. *)
Theorem App_Shutdown_leaves_events (a : App) (sch : list nat) (p : Proc) :
  is_Some (heap p !! modules) ->
  let p' := exec (App_Shutdown a sch) p in
  goroutines p' = goroutines p
  /\ calls p' = calls p
  /\ heap p' !!! modules = heap p !!! modules
  /\ crashed p' = crashed p
  /\ providers p' = providers p.
Proof.
  intros Hinit.
  destruct (App_Shutdown_run a sch p Hinit)
    as (results & tele & _ & _ & _ & Hh & _ & Hg & Hk & Hc & Hp).
  cbn zeta. auto.
Qed.

Lemma count_effects_app (f : Effect -> bool) (l1 l2 : list Effect) :
  count_effects f (l1 ++ l2) = (count_effects f l1 + count_effects f l2)%nat.
Proof. unfold count_effects. now rewrite filter_app, length_app. Qed.

Lemma count_effects_none (f : Effect -> bool) (l : list Effect) :
  (forall e, In e l -> f e = false) -> count_effects f l = 0%nat.
Proof.
  unfold count_effects. induction l as [|e l IH]; intros H; [reflexivity|].
  rewrite filter_cons. rewrite (H e (or_introl eq_refl)).
  destruct (decide _) as [[]|_]. apply IH. intros e' He'. apply H. now right.
Qed.

Lemma count_module_shutdown (n : string) (names : list string) :
  NoDup names -> In n names ->
  count_effects (is_module_shutdown n) (map EffModuleShutdown names) = 1%nat.
Proof.
  unfold count_effects. induction names as [|x names IH]; intros Hnd Hin.
  - destruct Hin.
  - apply NoDup_cons in Hnd as [Hx Hnd]. cbn [map]. rewrite filter_cons.
    cbn [is_module_shutdown].
    destruct (String.eqb n x) eqn:E.
    + apply String.eqb_eq in E. subst x.
      destruct (decide _) as [_|H]; [|exfalso; apply H; exact I].
      cbn [List.length]. f_equal.
      apply (count_effects_none (is_module_shutdown n)).
      intros e He. apply in_map_iff in He as (y & <- & Hy). cbn.
      apply String.eqb_neq. intros ->. apply Hx. now apply list_elem_of_In.
    + destruct (decide _) as [[]|_].
      apply IH; [exact Hnd|].
      destruct Hin as [->|Hin]; [|exact Hin].
      rewrite String.eqb_refl in E. discriminate.
Qed.

Lemma shutdowners_names (mods : gmap string Module) :
  NoDup (map fst (shutdowners mods))
  /\ forall n, In n (map fst (shutdowners mods))
       <-> exists m f, mods !! n = Some m /\ mod_Shutdown m = Some f.
Proof.
  unfold shutdowners.
  pose proof (NoDup_fst_map_to_list mods) as Hnd.
  assert (Hin : forall n m, In (n, m) (map_to_list mods) <-> mods !! n = Some m).
  { intros n m. rewrite <- list_elem_of_In. apply elem_of_map_to_list. }
  revert Hnd Hin. generalize (map_to_list mods) as l.
  intros l Hnd Hin. split.
  - clear Hin. induction l as [|[n m] l IH]; [constructor|].
    cbn [fmap list_fmap map fst] in Hnd. apply NoDup_cons in Hnd as [Hn Hnd].
    cbn [omap list_omap]. destruct (mod_Shutdown m) as [f|]; [|now apply IH].
    cbn [map fst]. apply NoDup_cons. split; [|now apply IH].
    intros H. apply Hn. apply list_elem_of_In in H.
    apply in_map_iff in H as ([n' f'] & E & H). cbn in E. subst n'.
    apply list_elem_of_In in H. apply list_elem_of_omap in H as ([n2 m2] & H2 & E2).
    destruct (mod_Shutdown m2); [|discriminate]. injection E2 as -> _.
    apply list_elem_of_fmap. now exists (n, m2).
  - intros n. rewrite in_map_iff. split.
    + intros ([n' f] & E & H). cbn in E. subst n'.
      apply list_elem_of_In, list_elem_of_omap in H as ([n2 m2] & H2 & E2).
      destruct (mod_Shutdown m2) as [f2|] eqn:Ef; [|discriminate].
      injection E2 as -> ->. exists m2, f. split; [|exact Ef].
      apply Hin. now apply list_elem_of_In.
    + intros (m & f & Hm & Hf). exists (n, f). split; [reflexivity|].
      apply list_elem_of_In, list_elem_of_omap. exists (n, m).
      split; [apply list_elem_of_In, Hin, Hm|]. now rewrite Hf.
Qed.

Lemma count_effects_perm (f : Effect -> bool) (l1 l2 : list Effect) :
  Permutation l1 l2 -> count_effects f l1 = count_effects f l2.
Proof.
  unfold count_effects. intros H. apply Permutation_length.
  now apply filter_Permutation.
Qed.

(** The counts of one run of [App.Shutdown]. *)
Lemma App_Shutdown_counts (a : App) (sch : list nat) (p : Proc) :
  is_Some (heap p !! modules) ->
  let p' := exec (App_Shutdown a sch) p in
  count_effects is_server_shutdown (trace p')
  = S (count_effects is_server_shutdown (trace p))
  /\ (forall n m f,
        (heap p !!! modules) !! n = Some m -> mod_Shutdown m = Some f ->
        count_effects (is_module_shutdown n) (trace p')
        = S (count_effects (is_module_shutdown n) (trace p)))
  /\ (is_Some (DB a) ->
      count_effects is_db_close (trace p')
      = S (count_effects is_db_close (trace p))).
Proof.
  intros Hinit.
  destruct (App_Shutdown_run a sch p Hinit)
    as (results & tele & [Hperm _] & Htele & Ht & _).
  cbn zeta. rewrite Ht. rewrite !count_effects_app.
  assert (Hmod : forall f, (forall n, f (EffModuleShutdown n) = false) ->
            count_effects f (map EffModuleShutdown (map fst results)) = 0%nat).
  { intros f Hf. apply count_effects_none.
    intros e He. apply in_map_iff in He as (n & <- & _). apply Hf. }
  assert (Htel : forall f, (forall pr, f (EffProviderShutdown pr) = false) ->
            count_effects f tele = 0%nat).
  { intros f Hf. apply count_effects_none.
    intros e He. apply list_elem_of_In in He.
    rewrite Forall_forall in Htele. destruct (Htele e He) as [pr ->]. apply Hf. }
  split; [|split].
  - rewrite (Hmod is_server_shutdown), (Htel is_server_shutdown) by reflexivity.
    change (count_effects is_server_shutdown [EffServerShutdown]) with 1%nat.
    replace (count_effects is_server_shutdown
               match DB a with Some _ => [EffDBClose] | None => [] end)
      with 0%nat by now destruct (DB a).
    lia.
  - intros n m f Hm Hf. rewrite !count_effects_app.
    rewrite (Htel (is_module_shutdown n)) by reflexivity.
    rewrite (count_effects_perm _ _ _
               (Permutation_map EffModuleShutdown Hperm)).
    destruct (shutdowners_names (heap p !!! modules)) as [Hnd Hin].
    rewrite count_module_shutdown; [| exact Hnd | apply Hin; eauto].
    change (count_effects (is_module_shutdown n) [EffServerShutdown]) with 0%nat.
    replace (count_effects (is_module_shutdown n)
               match DB a with Some _ => [EffDBClose] | None => [] end)
      with 0%nat by now destruct (DB a).
    lia.
  - intros [d Hd].
    rewrite (Hmod is_db_close), (Htel is_db_close) by reflexivity.
    rewrite Hd.
    change (count_effects is_db_close [EffServerShutdown]) with 0%nat.
    change (count_effects is_db_close [EffDBClose]) with 1%nat.
    lia.
Qed.

(** X21.  Nothing remembers that the application was shut down: a
    second [App.Shutdown] stops the server again, runs the [Shutdown]
    of every module that has one again, and closes the database
    again. *)
Theorem App_Shutdown_twice (a : App) (sch1 sch2 : list nat) (p : Proc) :
  is_Some (heap p !! modules) ->
  let p2 := exec (App_Shutdown a sch2) (exec (App_Shutdown a sch1) p) in
  count_effects is_server_shutdown (trace p2)
  = (count_effects is_server_shutdown (trace p) + 2)%nat
  /\ (forall n m f,
        (heap p !!! modules) !! n = Some m -> mod_Shutdown m = Some f ->
        count_effects (is_module_shutdown n) (trace p2)
        = (count_effects (is_module_shutdown n) (trace p) + 2)%nat)
  /\ (is_Some (DB a) ->
      count_effects is_db_close (trace p2)
      = (count_effects is_db_close (trace p) + 2)%nat).
Proof.
  intros Hinit.
  destruct (App_Shutdown_run a sch1 p Hinit)
    as (_ & _ & _ & _ & _ & Hh & Hinit1 & _).
  destruct (App_Shutdown_counts a sch1 p Hinit) as (Hs1 & Hm1 & Hd1).
  destruct (App_Shutdown_counts a sch2 _ Hinit1) as (Hs2 & Hm2 & Hd2).
  cbn zeta in *. split; [|split].
  - rewrite Hs2, Hs1. lia.
  - intros n m f Hm Hf.
    rewrite (Hm2 n m f), (Hm1 n m f); auto; [lia|]. now rewrite Hh.
  - intros Hdb. rewrite Hd2, Hd1 by exact Hdb. lia.
Qed.

End MoreAppShutdown.

(** With a meter provider that fails to shut down, the logger provider
    is left running. *)
Example ShutdownTelemetry_skips_logger :
  eval (@ShutdownTelemetry failing_meter_collab) telemetry_proc
  = Some "context deadline exceeded"
  /\ trace (exec (@ShutdownTelemetry failing_meter_collab) telemetry_proc)
     = [EffProviderShutdown TracerProvider;
        EffProviderShutdown MeterProvider].
Proof. split; reflexivity. Qed.

Lemma App_Shutdown_leaves_events_witness :
  let p := exec (DispatchEvent test_app "ping" sample_event sample_payload)
             failing_shutdown_proc in
  List.length (goroutines (exec (App_Shutdown test_app []) p)) = 2%nat
  /\ calls (exec (App_Shutdown test_app []) p) = [].
Proof.
  intros p.
  destruct (@App_Shutdown_leaves_events test_collab test_app [] p)
    as (Hg & Hc & _).
  { eexists. reflexivity. }
  cbn zeta in Hg, Hc. rewrite Hg, Hc. split; reflexivity.
Defined.

Lemma App_Shutdown_twice_witness :
  count_effects (is_module_shutdown "failing")
    (trace (exec (App_Shutdown test_app [])
              (exec (App_Shutdown test_app []) failing_shutdown_proc)))
  = 2%nat.
Proof.
  destruct (@App_Shutdown_twice test_collab test_app [] [] failing_shutdown_proc)
    as (_ & Hm & _).
  { eexists. reflexivity. }
  cbn zeta in Hm.
  rewrite (Hm "failing" (failingShutdownModule "failing") _ eq_refl eq_refl).
  reflexivity.
Defined.

(** ** Start-up: config.go, db.go, telemetry.go, app.go *)

Section MoreStartup.

Context {collab : Collaborators} {platform : Platform}.

Local Open Scope list_scope.

Lemma set_proc_same (s : Sys) : set_proc (proc s) s = s.
Proof. now destruct s. Qed.

(** What [InitDB] does, by the state of [dbOnce] and the answers of
    the database. *)
Lemma InitDB_cases (s : Sys) :
  let path := DBPath (GlobalConfig s) in
  let s0 := set_dbOnce true (set_opened (opened s ++ [path]) s) in
  InitDB s
  = if dbOnce s then (Done (db s, None), s)
    else match sql_Open path, db_Ping path with
         | Some err, _ =>
             (Done (None, Some ("failed to open database: " ++ err)%string),
              set_db None s0)
         | None, Some err =>
             (Done (Some path,
                    Some ("failed to connect to database: " ++ err)%string),
              set_proc (set_trace (trace (proc s) ++ [EffDBClose]) (proc s))
                (set_db (Some path) s0))
         | None, None => (Done (Some path, None), set_db (Some path) s0)
         end.
Proof.
  unfold InitDB. destruct (dbOnce s); [reflexivity|]. cbn zeta.
  destruct (sql_Open _); [reflexivity|]. now destruct (db_Ping _).
Qed.

(** X22.  Only the first call of [InitDB] opens the database, at
    [GlobalConfig.DBPath], and only that call can report an error:
    every later call, like [GetDB], returns the handle the first call
    left in [db] together with a nil error, and changes nothing.  That
    handle is nil when the open failed, and it is the closed handle
    when the ping failed. *)
Theorem InitDB_once (s : Sys) :
  let path := DBPath (GlobalConfig s) in
  exists h e s1,
    InitDB s = (Done (h, e), s1)
    /\ InitDB s1 = (Done (h, None), s1)
    /\ GetDB s1 = (Done h, s1)
    /\ (dbOnce s = false ->
        opened s1 = opened s ++ [path]
        /\ match sql_Open path, db_Ping path with
           | Some err, _ =>
               h = None
               /\ e = Some ("failed to open database: " ++ err)%string
               /\ proc s1 = proc s
           | None, Some err =>
               h = Some path
               /\ e = Some ("failed to connect to database: " ++ err)%string
               /\ trace (proc s1) = trace (proc s) ++ [EffDBClose]
           | None, None => h = Some path /\ e = None /\ proc s1 = proc s
           end).
Proof.
  intros path. pose proof (InitDB_cases s) as H. cbn zeta in H. fold path in H.
  destruct (dbOnce s) eqn:Eo.
  - exists (db s), None, s. split; [exact H|].
    split; [exact H|]. split; [reflexivity | discriminate].
  - destruct (sql_Open path) as [err|] eqn:Eopen.
    + eexists _, _, _. split; [exact H|].
      split; [reflexivity|]. split; [reflexivity|].
      intros _. cbn. auto.
    + destruct (db_Ping path) as [err|] eqn:Eping.
      * eexists _, _, _. split; [exact H|].
        split; [reflexivity|]. split; [reflexivity|].
        intros _. cbn. auto.
      * eexists _, _, _. split; [exact H|].
        split; [reflexivity|]. split; [reflexivity|].
        intros _. cbn. auto.
Qed.

(** X23.  [OpenDB] returns a handle exactly when it returns no error,
    which is when the database opens and answers the ping; a handle
    that does not answer is closed and not returned.  The shared
    connection of [InitDB] and [GetDB] is not touched. *)
Theorem OpenDB_result (dbPath : string) (s : Sys) :
  exists h e s1,
    OpenDB dbPath s = (Done (h, e), s1)
    /\ (e = None <-> sql_Open dbPath = None /\ db_Ping dbPath = None)
    /\ (e = None -> h = Some dbPath)
    /\ (e <> None -> h = None)
    /\ trace (proc s1)
       = trace (proc s)
           ++ match sql_Open dbPath, db_Ping dbPath with
              | None, Some _ => [EffDBClose]
              | _, _ => []
              end
    /\ opened s1 = opened s ++ [dbPath]
    /\ GetDB s1 = (Done (db s), s1)
    /\ dbOnce s1 = dbOnce s
    /\ GlobalConfig s1 = GlobalConfig s.
Proof.
  unfold OpenDB. cbn zeta.
  destruct (sql_Open dbPath) as [err|] eqn:Eopen.
  - eexists _, _, _. split; [reflexivity|]. cbn. rewrite app_nil_r.
    split; [split; [discriminate | intros [H _]; discriminate]|].
    split; [discriminate|]. auto 10.
  - destruct (db_Ping dbPath) as [err|] eqn:Eping.
    + eexists _, _, _. split; [reflexivity|]. cbn.
      split; [split; [discriminate | intros [_ H]; discriminate]|].
      split; [discriminate|]. auto 10.
    + eexists _, _, _. split; [reflexivity|]. cbn. rewrite app_nil_r.
      split; [tauto|]. split; [reflexivity|].
      split; [intros H; now contradiction H|]. auto 10.
Qed.

Lemma LoadConfigFromFile_cases (path : string) (p : Proc) :
  match eval (LoadConfigFromFile path) p with
  | inl config =>
      LoadConfigFromFile path p
      = (inl config, set_slog (slog p ++ [configSummary config]) p)
      /\ ValidateConfig config = None
      /\ ApplyConfigDefaults config = config
      /\ DBPath config <> "" /\ Port config <> ""
  | inr err => LoadConfigFromFile path p = (inr err, p)
  end.
Proof.
  unfold LoadConfigFromFile, eval.
  destruct (os_Open path) as [f|e]; [|reflexivity].
  destruct (yaml_Decode f) as [config|e]; [|reflexivity].
  destruct (ValidateConfig config) as [e|] eqn:Ev; [reflexivity|].
  cbn [fst snd bind ret]. split; [reflexivity|]. split; [exact Ev|].
  split; [apply ApplyConfigDefaults_twice|].
  unfold ApplyConfigDefaults; cbn [Port DBPath].
  split.
  - destruct (String.eqb (DBPath config) "") eqn:E; [discriminate|].
    now apply String.eqb_neq in E.
  - destruct (String.eqb (Port config) "") eqn:E; [discriminate|].
    now apply String.eqb_neq in E.
Qed.

(** X24.  [LoadConfig] replaces [GlobalConfig] exactly when the load
    succeeds: a failed load leaves it, and everything else, as it was.
    After a successful load [GlobalConfig] is complete, and the first
    [InitDB] opens the storage path it names, which is never empty. *)
Theorem LoadConfig_then_InitDB (path : string) (s : Sys) :
  exists r s1,
    LoadConfig path s = (Done r, s1)
    /\ (forall err, r = Some err ->
          s1 = s /\ eval (LoadConfigFromFile path) (proc s) = inr err)
    /\ (r = None ->
        eval (LoadConfigFromFile path) (proc s) = inl (GlobalConfig s1)
        /\ ValidateConfig (GlobalConfig s1) = None
        /\ DBPath (GlobalConfig s1) <> ""
        /\ db s1 = db s /\ dbOnce s1 = dbOnce s
        /\ (dbOnce s = false ->
            opened (snd (InitDB s1))
            = opened s ++ [DBPath (GlobalConfig s1)])).
Proof.
  pose proof (LoadConfigFromFile_cases path (proc s)) as H.
  unfold LoadConfig, bbind, lift.
  destruct (eval (LoadConfigFromFile path) (proc s)) as [config|err] eqn:E.
  - destruct H as (-> & Hv & _ & Hd & _).
    eexists _, _. split; [reflexivity|]. split; [discriminate|].
    intros _. cbn [GlobalConfig set_GlobalConfig set_proc db dbOnce].
    repeat (split; [auto; fail|]).
    intros Ho. rewrite InitDB_cases.
    cbn [GlobalConfig set_GlobalConfig set_proc db dbOnce opened].
    rewrite Ho. destruct (sql_Open _); [reflexivity|].
    now destruct (db_Ping _).
  - rewrite H. eexists _, _. split; [reflexivity|]. split; [|discriminate].
    intros err' Herr. injection Herr as <-.
    now rewrite set_proc_same.
Qed.

Lemma createInstruments_cases (names : list string) (s : Sys) :
  createInstruments names s = (Done tt, s)
  \/ exists v, createInstruments names s = (Panic v, s).
Proof.
  induction names as [|name names IH]; cbn; [now left|].
  destruct (meter_instrument name); [right; eauto | exact IH].
Qed.

(** One run of [InitTelemetry]. *)
Lemma InitTelemetry_run (s : Sys) :
  exists r s1,
    InitTelemetry s = (r, s1)
    /\ GlobalConfig s1 = GlobalConfig s /\ db s1 = db s
    /\ dbOnce s1 = dbOnce s /\ opened s1 = opened s
    /\ serving s1 = serving s /\ metricsOnce s1 = true
    /\ match r with
       | Done None =>
           proc s1
           = set_slog
               (slog (proc s)
                  ++ [{| log_level := LevelInfo;
                         log_msg := "[otto] OpenTelemetry (trace, metric, log+slog bridge) initialized";
                         log_attrs := [] |}])
               (set_providers (fun _ => true) (proc s))
           /\ resource_Merge = None /\ otlptracehttp_New = None
           /\ otlpmetrichttp_New = None /\ otlploghttp_New = None
       | Done (Some _) => proc s1 = proc s
       | Panic _ => proc s1 = proc s /\ metricsOnce s = false
       end.
Proof.
  unfold InitTelemetry, bbind, InitOttoMetrics.
  destruct (metricsOnce s) eqn:Em.
  - destruct resource_Merge; [eexists _, _; split; [reflexivity|]; auto 10|].
    destruct otlptracehttp_New; [eexists _, _; split; [reflexivity|]; auto 10|].
    destruct otlpmetrichttp_New; [eexists _, _; split; [reflexivity|]; auto 10|].
    destruct otlploghttp_New; [eexists _, _; split; [reflexivity|]; auto 10|].
    eexists _, _. split; [reflexivity|]. cbn. repeat split; auto.
  - destruct (createInstruments_cases instruments (set_metricsOnce true s))
      as [H|[v H]]; rewrite H.
    + destruct resource_Merge; [eexists _, _; split; [reflexivity|]; auto 10|].
      destruct otlptracehttp_New; [eexists _, _; split; [reflexivity|]; auto 10|].
      destruct otlpmetrichttp_New; [eexists _, _; split; [reflexivity|]; auto 10|].
      destruct otlploghttp_New; [eexists _, _; split; [reflexivity|]; auto 10|].
      eexists _, _. split; [reflexivity|]. cbn. repeat split; auto.
    + eexists _, _. split; [reflexivity|]. cbn. auto 10.
Qed.


(** The outcomes of [NewApp]. *)
Lemma NewApp_cases (configPath : string) (s : Sys) :
  exists res s1,
    NewApp configPath s = (res, s1)
    /\ GlobalConfig s1 = GlobalConfig s
    /\ serving s1 = serving s
    /\ match eval (LoadConfigFromFile configPath) (proc s) with
       | inr err => res = Done (None, Some err) /\ s1 = s
       | inl config =>
           exists r2 s2 p1,
             p1 = exec (LoadConfigFromFile configPath) (proc s)
             /\ InitTelemetry
                  (set_proc
                     (set_slog
                        (slog p1
                           ++ [{| log_level := LevelInfo;
                                  log_msg :=
                                    if negb (String.eqb (GitHubToken config) "")
                                    then "GitHub client initialized with authentication"
                                    else "GitHub client initialized (no auth)";
                                  log_attrs := [] |}]) p1) s)
                = (r2, s2)
             /\ match r2 with
                | Panic v => res = Panic v /\ s1 = s2
                | Done (Some err) => res = Done (None, Some err) /\ s1 = s2
                | Done None =>
                    exists h e,
                      InitDB s2 = (Done (h, e), s1)
                      /\ match e with
                         | Some err => res = Done (None, Some err)
                         | None =>
                             let a := {| Config := config; DB := h;
                                         WebhookSecret := WebHookSecret config;
                                         Addr := Port config |} in
                             res = Done (Some (a, NewServerWithApp
                                                    (WebHookSecret config)
                                                    (Port config) (Some a)),
                                         None)
                         end
                end
       end.
Proof.
  pose proof (LoadConfigFromFile_cases configPath (proc s)) as H.
  unfold NewApp, bbind, lift at 1.
  destruct (eval (LoadConfigFromFile configPath) (proc s)) as [config|err] eqn:E.
  2:{ rewrite H. eexists _, _. split; [reflexivity|].
      rewrite set_proc_same. auto. }
  destruct H as (H & _). rewrite H.
  set (p1 := set_slog _ (proc s)).
  assert (Hp1 : p1 = exec (LoadConfigFromFile configPath) (proc s))
    by (unfold exec; now rewrite H).
  set (line := {| log_level := LevelInfo;
                  log_msg := if negb (String.eqb (GitHubToken config) "")
                             then "GitHub client initialized with authentication"
                             else "GitHub client initialized (no auth)";
                  log_attrs := [] |}).
  assert (Hgh : (if negb (String.eqb (GitHubToken config) "")
                 then lift (slog_Info "GitHub client initialized with authentication" [])
                 else lift (slog_Info "GitHub client initialized (no auth)" []))
                  (set_proc p1 s)
                = (Done tt, set_proc (set_slog (slog p1 ++ [line]) p1) s)).
  { subst line. now destruct (negb _). }
  rewrite Hgh. rewrite <- Hp1.
  destruct (InitTelemetry_run (set_proc (set_slog (slog p1 ++ [line]) p1) s))
    as (r2 & s2 & Hrun & Hg2 & _ & _ & _ & Hs2 & _).
  rewrite Hrun.
  destruct r2 as [[err|]|v].
  - eexists _, _. split; [reflexivity|]. split; [exact Hg2|].
    split; [exact Hs2|]. exists (Done (Some err)), s2, p1. auto.
  - destruct (InitDB s2) as [[[h e]|v] s3] eqn:Edb.
    2:{ rewrite InitDB_cases in Edb. exfalso.
        destruct (dbOnce s2); [discriminate|].
        destruct (sql_Open _); [discriminate|].
        destruct (db_Ping _); discriminate. }
    assert (Hframe : GlobalConfig s3 = GlobalConfig s2 /\ serving s3 = serving s2).
    { rewrite InitDB_cases in Edb.
      destruct (dbOnce s2); [injection Edb as <- <- <-; auto|].
      destruct (sql_Open _); [injection Edb as <- <- <-; auto|].
      destruct (db_Ping _); injection Edb as <- <- <-; auto. }
    destruct Hframe as [Hg3 Hs3]. cbn [snd fst].
    destruct e as [err|].
    + eexists _, _. split; [reflexivity|].
      split; [now rewrite Hg3, Hg2|]. split; [now rewrite Hs3, Hs2|].
      exists (Done None), s2, p1. split; [reflexivity|]. split; [exact Hrun|].
      exists h, (Some err). auto.
    + eexists _, _. split; [reflexivity|].
      split; [now rewrite Hg3, Hg2|]. split; [now rewrite Hs3, Hs2|].
      exists (Done None), s2, p1. split; [reflexivity|]. split; [exact Hrun|].
      exists h, None. auto.
  - eexists _, _. split; [reflexivity|]. split; [exact Hg2|].
    split; [exact Hs2|]. exists (Panic v), s2, p1. auto.
Qed.

End MoreStartup.

Section MoreNewApp.

Context {collab : Collaborators} {platform : Platform}.

Local Open Scope list_scope.

Lemma InitTelemetry_frame (s s1 : Sys) (r : Res (option error)) :
  InitTelemetry s = (r, s1) ->
  GlobalConfig s1 = GlobalConfig s /\ db s1 = db s
  /\ dbOnce s1 = dbOnce s /\ opened s1 = opened s
  /\ metricsOnce s1 = true
  /\ match r with
     | Done None =>
         (forall pr, providers (proc s1) pr = true)
         /\ trace (proc s1) = trace (proc s)
         /\ resource_Merge = None /\ otlptracehttp_New = None
         /\ otlpmetrichttp_New = None /\ otlploghttp_New = None
     | Done (Some _) => proc s1 = proc s
     | Panic _ => proc s1 = proc s /\ metricsOnce s = false
     end.
Proof.
  destruct (InitTelemetry_run s)
    as (r' & s' & H & Hg & Hd & Ho & Hop & _ & Hm & Hr).
  intros E. rewrite H in E. injection E as <- <-.
  repeat (split; [assumption|]).
  destruct r' as [[e|]|v]; [exact Hr | | exact Hr].
  destruct Hr as (-> & Hrest). split; [reflexivity|]. split; [reflexivity|].
  exact Hrest.
Qed.

(** What a successful [NewApp] has done. *)
Lemma NewApp_success (configPath : string) (s s1 : Sys) (a : App) (srv : Server) :
  NewApp configPath s = (Done (Some (a, srv), None), s1) ->
  exists config s2,
    eval (LoadConfigFromFile configPath) (proc s) = inl config
    /\ a = {| Config := config; DB := db s1;
              WebhookSecret := WebHookSecret config; Addr := Port config |}
    /\ srv = NewServerWithApp (WebHookSecret config) (Port config) (Some a)
    /\ GlobalConfig s2 = GlobalConfig s /\ db s2 = db s
    /\ dbOnce s2 = dbOnce s /\ opened s2 = opened s
    /\ (forall pr, providers (proc s2) pr = true)
    /\ InitDB s2 = (Done (db s1, None), s1).
Proof.
  intros Hnew.
  destruct (NewApp_cases configPath s) as (res & s1' & Hrun & _ & _ & Hcase).
  rewrite Hnew in Hrun. injection Hrun as <- <-.
  destruct (eval (LoadConfigFromFile configPath) (proc s)) as [config|err] eqn:E.
  2:{ destruct Hcase as [Hc _]. discriminate. }
  destruct Hcase as (r2 & s2 & p1 & _ & Htel & Hr2).
  destruct r2 as [[err|]|v]; try (destruct Hr2; discriminate).
  destruct Hr2 as (h & e & Hdb & He).
  destruct e as [err|]; [discriminate|]. cbn zeta in He.
  injection He as -> ->.
  destruct (InitTelemetry_frame _ _ _ Htel) as (Hg & Hd & Ho & Hop & _ & Hp & _).
  assert (Hh : h = db s1).
  { rewrite InitDB_cases in Hdb.
    destruct (dbOnce s2); [now injection Hdb as <- <-|].
    destruct (sql_Open _); [discriminate|].
    destruct (db_Ping _); [discriminate|]. now injection Hdb as <- <-. }
  subst h. exists config, s2. auto 10.
Qed.

(** X26.  [NewApp] does not store the configuration it loads in
    [GlobalConfig], and [InitDB] reads the storage path from there: in
    a process whose database was not opened yet, the application gets
    a handle on [GlobalConfig.DBPath] as it was before the call,
    whatever storage path the loaded configuration names; when the
    database was opened before, it gets that handle. *)
Theorem NewApp_database_path (configPath : string) (s s1 : Sys) (a : App)
    (srv : Server) :
  NewApp configPath s = (Done (Some (a, srv), None), s1) ->
  eval (LoadConfigFromFile configPath) (proc s) = inl (Config a)
  /\ DBPath (Config a) <> ""
  /\ GlobalConfig s1 = GlobalConfig s
  /\ (dbOnce s = false ->
      DB a = Some (DBPath (GlobalConfig s))
      /\ opened s1 = opened s ++ [DBPath (GlobalConfig s)])
  /\ (dbOnce s = true -> DB a = db s /\ opened s1 = opened s).
Proof.
  intros Hnew.
  destruct (NewApp_success _ _ _ _ _ Hnew)
    as (config & s2 & E & -> & _ & Hg & Hd & Ho & Hop & _ & Hdb).
  cbn [Config DB].
  pose proof (LoadConfigFromFile_cases configPath (proc s)) as Hc.
  rewrite E in Hc. destruct Hc as (_ & _ & _ & Hpath & _).
  split; [exact E|]. split; [exact Hpath|].
  rewrite InitDB_cases, Ho, Hg, Hop, Hd in Hdb.
  destruct (dbOnce s).
  - injection Hdb as Hdb <-. split; [exact Hg|].
    split; [discriminate|]. intros _. now rewrite Hop.
  - destruct (sql_Open _); [discriminate|].
    destruct (db_Ping _); [discriminate|].
    injection Hdb as Hdb <-. cbn. split; [exact Hg|].
    split; [|discriminate]. intros _. split; reflexivity.
Qed.

(** X27.  The server of an application that [NewApp] returns points
    back to the application, listens on [":"] and the port of the
    loaded configuration, and verifies signatures with the secret of
    that configuration, which is not empty: a signature made with the
    secret of the file is accepted.  The telemetry providers are
    set. *)
Theorem NewApp_server (configPath : string) (s s1 : Sys) (a : App)
    (srv : Server) :
  NewApp configPath s = (Done (Some (a, srv), None), s1) ->
  app srv = Some a
  /\ server_Addr srv = (":" ++ Port (Config a))%string
  /\ Port (Config a) <> ""
  /\ Addr a = Port (Config a)
  /\ WebhookSecret a = WebHookSecret (Config a)
  /\ WebHookSecret (Config a) <> ""
  /\ (forall payload,
        verifySignature srv payload
          ("sha256="
           ++ Hex.EncodeToString
                (hmac_sha256 (bytes_of (WebHookSecret (Config a))) payload))%string
        = true)
  /\ (forall pr, providers (proc s1) pr = true).
Proof.
  intros Hnew.
  destruct (NewApp_success _ _ _ _ _ Hnew)
    as (config & s2 & E & Ha & -> & _ & _ & _ & _ & Hp & Hdb).
  pose proof (LoadConfigFromFile_cases configPath (proc s)) as Hc.
  rewrite E in Hc. destruct Hc as (_ & Hv & _ & _ & Hport).
  assert (Hcfg : Config a = config) by now rewrite Ha.
  rewrite Hcfg.
  split; [reflexivity|]. split; [reflexivity|]. split; [exact Hport|].
  split; [now rewrite Ha|]. split; [now rewrite Ha|].
  split.
  { intros Hs. apply ValidateConfig_iff in Hs as [err Herr]. congruence. }
  split.
  { intros payload. apply verifySignature_iff. eexists. split; [reflexivity|].
    apply EncodeToString_hex_encoding. }
  intros pr. rewrite InitDB_cases in Hdb.
  destruct (dbOnce s2); [injection Hdb as _ <-; apply Hp|].
  destruct (sql_Open _); [discriminate|].
  destruct (db_Ping _); [discriminate|].
  injection Hdb as _ <-. apply Hp.
Qed.

End MoreNewApp.

Section MoreNewAppFailure.

Context {collab : Collaborators} {platform : Platform}.

Local Open Scope list_scope.

Lemma LoadConfigFromFile_eval (path : string) (p p' : Proc) :
  eval (LoadConfigFromFile path) p = eval (LoadConfigFromFile path) p'.
Proof.
  unfold LoadConfigFromFile, eval.
  destruct (os_Open path) as [f|e]; [|reflexivity].
  destruct (yaml_Decode f) as [config|e]; [|reflexivity].
  destruct (ValidateConfig config); reflexivity.
Qed.

Lemma InitTelemetry_again (s : Sys) :
  metricsOnce s = true ->
  resource_Merge = None -> otlptracehttp_New = None ->
  otlpmetrichttp_New = None -> otlploghttp_New = None ->
  exists s1, InitTelemetry s = (Done None, s1).
Proof.
  intros Hm H1 H2 H3 H4. unfold InitTelemetry, bbind, InitOttoMetrics.
  rewrite Hm, H1, H2, H3, H4. eexists. reflexivity.
Qed.

(** A failed [NewApp], by the step that failed. *)
Lemma NewApp_failed (configPath : string) (s s1 : Sys) (err : error) :
  NewApp configPath s = (Done (None, Some err), s1) ->
  (eval (LoadConfigFromFile configPath) (proc s) = inr err /\ s1 = s)
  \/ (exists config s0,
        eval (LoadConfigFromFile configPath) (proc s) = inl config
        /\ InitTelemetry s0 = (Done (Some err), s1)
        /\ opened s0 = opened s /\ db s0 = db s /\ dbOnce s0 = dbOnce s
        /\ providers (proc s0) = providers (proc s)
        /\ trace (proc s0) = trace (proc s)
        /\ List.length (slog (proc s0)) = (2 + List.length (slog (proc s)))%nat)
  \/ (exists config s0 s2 h,
        eval (LoadConfigFromFile configPath) (proc s) = inl config
        /\ InitTelemetry s0 = (Done None, s2)
        /\ InitDB s2 = (Done (h, Some err), s1)
        /\ opened s0 = opened s /\ db s0 = db s /\ dbOnce s0 = dbOnce s
        /\ GlobalConfig s0 = GlobalConfig s).
Proof.
  intros Hnew.
  destruct (NewApp_cases configPath s) as (res & s1' & Hrun & _ & _ & Hcase).
  rewrite Hnew in Hrun. injection Hrun as <- <-.
  pose proof (LoadConfigFromFile_cases configPath (proc s)) as Hc.
  destruct (eval (LoadConfigFromFile configPath) (proc s)) as [config|e] eqn:E.
  2:{ destruct Hcase as [Hr ->]. injection Hr as ->. now left. }
  right.
  destruct Hc as (Hc & _).
  destruct Hcase as (r2 & s2 & p1 & Hp1 & Htel & Hr2).
  assert (Hp : p1 = set_slog (slog (proc s) ++ [configSummary config]) (proc s))
    by (unfold exec in Hp1; now rewrite Hc in Hp1).
  destruct r2 as [[e|]|v]; [| |destruct Hr2; discriminate].
  - destruct Hr2 as [Hr ->]. injection Hr as ->. left.
    eexists config, _. split; [reflexivity|]. split; [exact Htel|].
    clear Hp1. subst p1. repeat (split; [reflexivity|]).
    cbn [proc set_proc slog set_slog]. rewrite !length_app.
    simpl. lia.
  - destruct Hr2 as (h & e & Hdb & He).
    destruct e as [e|]; [|discriminate]. injection He as ->. right.
    eexists config, _, s2, h. split; [reflexivity|]. split; [exact Htel|].
    split; [exact Hdb|]. clear Hp1. subst p1. cbn. auto.
Qed.

(** X28.  A [NewApp] that fails leaves [GlobalConfig] alone and undoes
    nothing.  When the configuration does not load, nothing else has
    happened.  When the telemetry fails, the summary and the client
    line are logged, and the database and the providers are as before.
    When the database fails, it was this call that tried to open it,
    and the telemetry providers stay set. *)
Theorem NewApp_failure (configPath : string) (s s1 : Sys) (err : error) :
  NewApp configPath s = (Done (None, Some err), s1) ->
  GlobalConfig s1 = GlobalConfig s
  /\ ((eval (LoadConfigFromFile configPath) (proc s) = inr err /\ s1 = s)
      \/ (opened s1 = opened s /\ db s1 = db s /\ dbOnce s1 = dbOnce s
          /\ providers (proc s1) = providers (proc s)
          /\ trace (proc s1) = trace (proc s)
          /\ List.length (slog (proc s1)) = (2 + List.length (slog (proc s)))%nat)
      \/ (dbOnce s = false /\ dbOnce s1 = true
          /\ opened s1 = opened s ++ [DBPath (GlobalConfig s)]
          /\ (forall pr, providers (proc s1) pr = true))).
Proof.
  intros Hnew.
  destruct (NewApp_cases configPath s) as (res & s1' & Hrun & Hg & _).
  rewrite Hnew in Hrun. injection Hrun as <- <-.
  split; [exact Hg|].
  destruct (NewApp_failed _ _ _ _ Hnew)
    as [H | [(config & s0 & _ & Htel & Ho & Hd & Hon & Hp & Ht & Hl)
           | (config & s0 & s2 & h & _ & Htel & Hdb & Ho & Hd & Hon & Hg0)]].
  - now left.
  - right. left.
    destruct (InitTelemetry_frame _ _ _ Htel) as (_ & Hd1 & Hon1 & Ho1 & _ & Hp1).
    cbn in Hp1. rewrite Hp1, Hd1, Hon1, Ho1. auto 10.
  - right. right.
    destruct (InitTelemetry_frame _ _ _ Htel) as (Hg2 & Hd2 & Hon2 & Ho2 & _ & Hp2 & _).
    rewrite InitDB_cases, Hon2, Hon, Hg2, Hg0, Ho2, Ho in Hdb.
    destruct (dbOnce s); [discriminate|].
    destruct (sql_Open _).
    + injection Hdb as _ _ <-. cbn. auto.
    + destruct (db_Ping _); [|discriminate].
      injection Hdb as _ _ <-. cbn. auto.
Qed.

(** X29.  When [NewApp] fails because the database does not open or
    does not answer, a second [NewApp] in the same process succeeds
    without going to the database again: [dbOnce] is used up, and the
    application gets the handle the failed call left behind, which is
    nil or closed. *)
Theorem NewApp_retry (configPath : string) (s s1 : Sys) (err : error) :
  NewApp configPath s = (Done (None, Some err), s1) ->
  opened s1 <> opened s ->
  exists a srv s2,
    NewApp configPath s1 = (Done (Some (a, srv), None), s2)
    /\ DB a = db s1
    /\ opened s2 = opened s1
    /\ (DB a = None \/ In EffDBClose (trace (proc s1))).
Proof.
  intros Hnew Hopened.
  destruct (NewApp_failed _ _ _ _ Hnew)
    as [[_ ->] | [(config & s0 & _ & Htel & Ho & _)
                 | (config & s0 & s2 & h & E & Htel & Hdb & Ho & Hd & Hon & Hg0)]].
  - now contradiction Hopened.
  - destruct (InitTelemetry_frame _ _ _ Htel) as (_ & _ & _ & Ho1 & _).
    rewrite Ho1, Ho in Hopened. now contradiction Hopened.
  - destruct (InitTelemetry_frame _ _ _ Htel)
      as (_ & _ & _ & _ & Hm2 & _ & _ & H1 & H2 & H3 & H4).
    assert (Hs1 : dbOnce s1 = true /\ metricsOnce s1 = true
                  /\ (db s1 = None \/ In EffDBClose (trace (proc s1)))).
    { rewrite InitDB_cases in Hdb.
      destruct (dbOnce s2); [discriminate|].
      destruct (sql_Open _).
      - injection Hdb as _ _ <-. cbn. auto.
      - destruct (db_Ping _); [|discriminate].
        injection Hdb as _ _ <-. cbn. split; [reflexivity|].
        split; [exact Hm2|]. right. apply in_or_app. right. now left. }
    destruct Hs1 as (Hon1 & Hm1 & Hclosed).
    destruct (NewApp_cases configPath s1) as (res & s3 & Hrun & _ & _ & Hcase).
    rewrite (LoadConfigFromFile_eval configPath (proc s1) (proc s)), E in Hcase.
    destruct Hcase as (r2 & s2' & p1 & _ & Htel' & Hr2).
    destruct (InitTelemetry_again
                (set_proc
                   (set_slog
                      (slog p1
                         ++ [{| log_level := LevelInfo;
                                log_msg :=
                                  if negb (String.eqb (GitHubToken config) "")
                                  then "GitHub client initialized with authentication"
                                  else "GitHub client initialized (no auth)";
                                log_attrs := [] |}]) p1) s1) Hm1 H1 H2 H3 H4)
      as [s2'' Hagain].
    rewrite Hagain in Htel'. injection Htel' as <- <-.
    destruct (InitTelemetry_frame _ _ _ Hagain) as (_ & Hd' & Hon' & Ho' & _).
    cbn in Hd', Hon', Ho'.
    destruct Hr2 as (h' & e' & Hdb' & He').
    rewrite InitDB_cases, Hon', Hon1 in Hdb'.
    injection Hdb' as <- <- <-. cbn zeta in He'. subst res.
    eexists _, _, _. split; [exact Hrun|]. cbn [DB].
    rewrite Hd', Ho'. auto.
Qed.

End MoreNewAppFailure.

Section MoreStart.

Context {collab : Collaborators} {platform : Platform}.

Local Open Scope list_scope.

Lemma initializers_app (a : App) (l1 l2 : list (string * Module)) :
  initializers a (l1 ++ l2) = initializers a l1 ++ initializers a l2.
Proof. apply omap_app. Qed.

(** The loop of [initializeModules] runs the initializers of the
    snapshot in some order up to the first failure, and changes only
    the world and the log. *)
Lemma initializeLoop_spec (a : App) (n : nat) (sch : list nat)
    (pending : list (string * Module)) (p : Proc) :
  n = List.length pending ->
  exists order,
    Permutation order (initializers a pending)
    /\ let p' := exec (initializeLoop a n sch pending) p in
       eval (initializeLoop a n sch pending) p
       = option_map snd (snd (run_inits order (world p)))
       /\ world p' = fst (run_inits order (world p))
       /\ slog p'
          = slog p ++ match snd (run_inits order (world p)) with
                      | Some ne => [init_error_record ne]
                      | None => []
                      end
       /\ heap p' = heap p /\ trace p' = trace p
       /\ goroutines p' = goroutines p /\ calls p' = calls p
       /\ crashed p' = crashed p /\ providers p' = providers p.
Proof.
  revert sch pending p. induction n as [|n IH]; intros sch pending p Hn.
  - destruct pending; [|discriminate]. exists []. split; [reflexivity|].
    cbn. rewrite app_nil_r. auto 10.
  - cbn [initializeLoop].
    destruct (pick (hd 0%nat sch) pending) as [[[name m] rest]|] eqn:E.
    2:{ apply pick_None in E. subst pending. discriminate. }
    apply pick_Some in E as (before & after & -> & ->).
    rewrite length_app in Hn. cbn in Hn.
    assert (Hrest : n = List.length (before ++ after))
      by (rewrite length_app; lia).
    rewrite initializers_app. cbn [initializers omap list_omap].
    fold (initializers a after).
    destruct (mod_Initialize m) as [f|] eqn:Ef.
    + unfold eval, exec, bind. cbn [fst snd].
      destruct (f a (world p)) as [w r] eqn:Efw.
      destruct r as [err|].
      * exists ((name, f a) :: initializers a (before ++ after)).
        split.
        { rewrite initializers_app. apply Permutation_middle. }
        cbn [run_inits]. rewrite Efw. cbn. auto 10.
      * destruct (IH (tl sch) (before ++ after) (set_world w p) Hrest)
          as (order & Hperm & Hev & Hw & Hl & Hrest').
        exists ((name, f a) :: order).
        split.
        { rewrite Hperm, initializers_app. apply Permutation_middle. }
        cbn [run_inits]. rewrite Efw.
        unfold eval, exec in *. cbn [world set_world slog] in *.
        rewrite Hev, Hw, Hl. split; [reflexivity|]. split; [reflexivity|].
        split; [reflexivity|]. exact Hrest'.
    + destruct (IH (tl sch) (before ++ after) p Hrest)
        as (order & Hperm & H).
      exists order. split; [|exact H].
      now rewrite Hperm, initializers_app.
Qed.

(** X30.  [App.Start] runs the [Initialize] of the registered modules
    that have one, in some order, and stops at the first that fails:
    the modules after it are not initialized, the failure is logged
    and returned, and the server is not started.  When none fails,
    every initializer has run once, the server is started on its
    address and the start is logged.  Nothing is dispatched. *)
Theorem App_Start_initializes_first (a : App) (srv : Server) (sch : list nat)
    (s : Sys) :
  exists order r s1,
    Permutation order
      (initializers a (map_to_list (heap (proc s) !!! modules)))
    /\ App_Start a srv sch s = (Done r, s1)
    /\ world (proc s1) = fst (run_inits order (world (proc s)))
    /\ match snd (run_inits order (world (proc s))) with
       | Some ne =>
           r = Some (snd ne)
           /\ serving s1 = serving s
           /\ slog (proc s1) = slog (proc s) ++ [init_error_record ne]
       | None =>
           r = None
           /\ serving s1 = serving s ++ [server_Addr srv]
           /\ slog (proc s1)
              = slog (proc s)
                  ++ [{| log_level := LevelInfo; log_msg := "otto started";
                         log_attrs := [("addr", VStr (Addr a))] |}]
       end
    /\ goroutines (proc s1) = goroutines (proc s)
    /\ calls (proc s1) = calls (proc s)
    /\ trace (proc s1) = trace (proc s).
Proof.
  set (mods := heap (proc s) !!! modules).
  assert (Hinit : initializeModules a sch (proc s)
                  = initializeLoop a (List.length (map_to_list mods)) sch
                      (map_to_list mods)
                      (set_heap (<[fresh (dom (heap (proc s))) := mods]>
                                   (heap (proc s))) (proc s))).
  { unfold initializeModules, bind. rewrite GetModules_eq.
    unfold readMap. cbn [heap set_heap fst snd].
    now rewrite lookup_total_insert_eq. }
  set (p1 := set_heap _ (proc s)) in Hinit.
  destruct (initializeLoop_spec a (List.length (map_to_list mods)) sch
              (map_to_list mods) p1 eq_refl)
    as (order & Hperm & Hev & Hw & Hl & _ & Ht & Hg & Hc & _).
  unfold eval, exec in *.
  change (world p1) with (world (proc s)) in *.
  unfold App_Start, bbind, lift at 1. rewrite Hinit.
  destruct (initializeLoop a _ sch (map_to_list mods) p1) as [r p2].
  cbn [fst snd] in *. subst r.
  exists order.
  destruct (snd (run_inits order (world (proc s)))) as [[name err]|].
  - eexists _, _. split; [exact Hperm|]. split; [reflexivity|].
    cbn. rewrite Hw, Hl, Hg, Hc, Ht. auto 10.
  - eexists _, _. split; [exact Hperm|]. split; [reflexivity|].
    cbn. rewrite Hw, Hl, Hg, Hc, Ht, app_nil_r. auto 10.
Qed.

End MoreStart.

Lemma NewApp_database_path_witness :
  let r := @NewApp test_collab test_platform "otto.yaml"
             (init_sys (@init_proc test_collab ∅)) in
  exists a srv,
    fst r = Done (Some (a, srv), None)
    /\ DB a = Some "" /\ DBPath (Config a) = "data.db".
Proof.
  intros r.
  set (a := {| Config := ApplyConfigDefaults sample_config; DB := Some "";
               WebhookSecret := "It's a Secret to Everybody";
               Addr := "8080" |} : App).
  set (srv := NewServerWithApp "It's a Secret to Everybody" "8080" (Some a)).
  assert (E : r = (Done (Some (a, srv), None), snd r)) by reflexivity.
  destruct (@NewApp_database_path test_collab test_platform "otto.yaml"
              _ _ a srv E) as (_ & _ & _ & Hdb & _).
  exists a, srv. split; [reflexivity|].
  split; [apply Hdb; reflexivity | reflexivity].
Defined.

Lemma NewApp_server_witness :
  let r := @NewApp test_collab test_platform "otto.yaml"
             (init_sys (@init_proc test_collab ∅)) in
  exists a srv,
    fst r = Done (Some (a, srv), None)
    /\ server_Addr srv = ":8080"
    /\ app srv = Some a
    /\ forall pr, providers (proc (snd r)) pr = true.
Proof.
  intros r.
  set (a := {| Config := ApplyConfigDefaults sample_config; DB := Some "";
               WebhookSecret := "It's a Secret to Everybody";
               Addr := "8080" |} : App).
  set (srv := NewServerWithApp "It's a Secret to Everybody" "8080" (Some a)).
  assert (E : r = (Done (Some (a, srv), None), snd r)) by reflexivity.
  destruct (@NewApp_server test_collab test_platform "otto.yaml"
              _ _ a srv E) as (Happ & Haddr & _ & _ & _ & _ & _ & Hp).
  exists a, srv. split; [reflexivity|]. split; [exact Haddr|].
  split; [exact Happ | exact Hp].
Defined.

Lemma NewApp_failure_witness :
  let r := @NewApp test_collab failing_ping_platform "otto.yaml"
             (init_sys (@init_proc test_collab ∅)) in
  fst r = Done (None,
                Some "failed to connect to database: unable to open database file")
  /\ GlobalConfig (snd r) = zero_config.
Proof.
  intros r.
  assert (E : r = (Done (None,
                         Some "failed to connect to database: unable to open database file"),
                   snd r)) by reflexivity.
  split; [reflexivity|].
  exact (proj1 (@NewApp_failure test_collab failing_ping_platform "otto.yaml"
                  _ _ _ E)).
Defined.

Lemma NewApp_retry_witness :
  let r := @NewApp test_collab failing_ping_platform "otto.yaml"
             (init_sys (@init_proc test_collab ∅)) in
  exists a srv s2,
    @NewApp test_collab failing_ping_platform "otto.yaml" (snd r)
    = (Done (Some (a, srv), None), s2)
    /\ DB a = db (snd r)
    /\ opened s2 = opened (snd r)
    /\ (DB a = None \/ In EffDBClose (trace (proc (snd r)))).
Proof.
  intros r.
  assert (E : r = (Done (None,
                         Some "failed to connect to database: unable to open database file"),
                   snd r)) by reflexivity.
  apply (@NewApp_retry test_collab failing_ping_platform "otto.yaml"
           _ _ _ E).
  discriminate.
Defined.

(** With a module whose [Initialize] fails, [App.Start] returns its
    error and starts no server. *)
Example App_Start_failing_initializer :
  let r := @App_Start test_collab failing_init_platform test_app
             (NewServerWithApp "It's a Secret to Everybody" "8080" (Some test_app))
             [] (init_sys erring_proc) in
  fst r = Done (Some "init failed") /\ serving (snd r) = [].
Proof. split; reflexivity. Qed.
